(** * PaperSync database helper: [database/connection.py]

    A shallow embedding of the [Database] class: configuration loading
    ([_load_config]), the single connection ([connect], [close]) and the
    lookup helpers.  Python values are modelled by [pyval], dictionaries by
    [gmap string pyval], exceptions by an explicit [result] type, printing
    by an output log, and the process environment, the file system and the
    database server by a [World]. *)

From Stdlib Require Import ZArith String Ascii List Bool Lia.
From stdpp Require Import base option list gmap strings pretty fin_maps.

Local Open Scope string_scope.

(** ** Python values *)

(** The values [json.load] can produce, and the ones [_load_config] builds
    itself ([None] and [str]).  JSON numbers with a fraction are left out:
    no operation of the class computes with them. *)
#[warnings="-register-all"]
Inductive pyval :=
| PNone
| PBool (b : bool)
| PInt (z : Z)
| PStr (s : string)
| PList (l : list pyval)
| PDict (d : gmap string pyval).

(** Python truth value testing: [None], [False], zero, and empty strings,
    lists and dicts are false. *)
Definition truthy (v : pyval) : bool :=
  match v with
  | PNone => false
  | PBool b => b
  | PInt z => negb (z =? 0)%Z
  | PStr s => negb (String.eqb s "")
  | PList l => negb (Nat.eqb (length l) 0)
  | PDict d => negb (Nat.eqb (size d) 0)
  end.

(** ** Exceptions and results *)

Inductive exn_class :=
| KeyError | TypeError | AttributeError | OSError | ValueError
| ConnectionError | OperationalError | InterfaceError | ProgrammingError
| Exception.

(** An exception: its class and [str(e)]. *)
Record exn := Exn { exn_cls : exn_class; exn_msg : string }.

Inductive result (A : Type) :=
| Ok (a : A)
| Raise (e : exn).
Arguments Ok {A} a.
Arguments Raise {A} e.

(** [type(v).__name__] *)
Definition type_name (v : pyval) : string :=
  match v with
  | PNone => "NoneType"
  | PBool _ => "bool"
  | PInt _ => "int"
  | PStr _ => "str"
  | PList _ => "list"
  | PDict _ => "dict"
  end.

(** [d[k]] and [d[k] = v] on an arbitrary value, for a key that is a
    string (messages as of Python 3.11). *)
Definition getitem (v : pyval) (k : string) : result pyval :=
  match v with
  | PDict d =>
      match d !! k with
      | Some x => Ok x
      | None => Raise (Exn KeyError ("'" ++ k ++ "'"))
      end
  | PList _ => Raise (Exn TypeError "list indices must be integers or slices, not str")
  | PStr _ => Raise (Exn TypeError "string indices must be integers, not 'str'")
  | _ => Raise (Exn TypeError ("'" ++ type_name v ++ "' object is not subscriptable"))
  end.

Definition setitem (v : pyval) (k : string) (x : pyval) : result pyval :=
  match v with
  | PDict d => Ok (PDict (<[k := x]> d))
  | PList _ => Raise (Exn TypeError "list indices must be integers or slices, not str")
  | _ => Raise (Exn TypeError
                  ("'" ++ type_name v ++ "' object does not support item assignment"))
  end.

(** ** The outside world *)

(** What the [try] body of the probing loop meets at a path. *)
Inductive file_state :=
| Missing                 (* [config_path.exists()] is false *)
| Broken (e : exn)        (* [exists], [open] or [json.load] raises [e] *)
| Parsed (v : pyval).     (* [json.load(f)] returns [v] *)

Record World := {
  environ : gmap string string;        (* [os.environ] *)
  meipass : option string;             (* [sys._MEIPASS], if defined *)
  module_dir : string;                 (* [Path(__file__).parent] *)
  exe_dir : string;                    (* [Path(sys.executable).parent] *)
  fs : string -> file_state;           (* the file system, by path *)
}.

Definition getenv (w : World) (k : string) : option string := environ w !! k.

Definition getenv_default (w : World) (k d : string) : string :=
  default d (environ w !! k).

(** [os.getenv(k)] as a Python value. *)
Definition getenv_val (w : World) (k : string) : pyval :=
  match getenv w k with
  | Some s => PStr s
  | None => PNone
  end.

(** ** Paths

    [pathlib] on a POSIX system: a path is an anchor (empty, [/] or [//])
    and its components; empty components and [.] are dropped when a string
    is parsed, and the path without anchor and components prints as [.]. *)
Record PurePath := { anchor : string; parts : list string }.

(** [s.split(sep)] *)
Fixpoint split_on (sep : ascii) (s : string) : list string :=
  match s with
  | EmptyString => [EmptyString]
  | String c s' =>
      if Ascii.eqb c sep then EmptyString :: split_on sep s'
      else match split_on sep s' with
           | cur :: rest => String c cur :: rest
           | [] => [String c EmptyString]
           end
  end.

Fixpoint leading_slashes (s : string) : nat :=
  match s with
  | String "/" s' => S (leading_slashes s')
  | _ => 0
  end.

(** [Path(s)] *)
Definition Path (s : string) : PurePath :=
  {| anchor := match leading_slashes s with
               | 0 => ""
               | 2 => "//"
               | _ => "/"
               end;
     parts := filter (fun part => part <> "" /\ part <> ".") (split_on "/" s) |}.

(** [p / name] *)
Definition joinpath (p : PurePath) (name : string) : PurePath :=
  let q := Path name in
  if String.eqb (anchor q) ""
  then {| anchor := anchor p; parts := parts p ++ parts q |}
  else q.

(** [str(p)] *)
Definition path_str (p : PurePath) : string :=
  match anchor p, parts p with
  | EmptyString, [] => "."
  | a, l => a ++ String.concat "/" l
  end.

(** [p / name] between the printed forms of the paths, which is how the
    file system is addressed and how a path is printed. *)
Definition path_join (p name : string) : string :=
  path_str (joinpath (Path p) name).

(** [str.upper] on ASCII. *)
Definition upper_ascii (c : ascii) : ascii :=
  let n := nat_of_ascii c in
  if (97 <=? n)%nat && (n <=? 122)%nat then ascii_of_nat (n - 32) else c.

Fixpoint upper (s : string) : string :=
  match s with
  | EmptyString => EmptyString
  | String c s' => String (upper_ascii c) (upper s')
  end.

(** The rows a statement yields: a cell is SQL [NULL], text or an integer. *)
Inductive sqlval :=
| SNull
| SText (s : string)
| SInt (z : Z).

Definition row := list sqlval.

(** The arguments of [psycopg2.connect]. *)
Record conn_args := {
  a_dbname : pyval; a_user : pyval; a_password : pyval;
  a_host : pyval; a_port : pyval;
}.

(** The database server, as the driver shows it: whether a connection
    attempt is refused, what a statement with its parameters yields,
    whether [COMMIT] and [ROLLBACK] fail, and whether an exception the
    driver raises on an open connection comes with the loss of that
    connection, in which case the driver flags the connection closed. *)
Record Server := {
  pg_connect : conn_args -> option exn;              (* [Some e]: raises [e] *)
  pg_execute : string -> pyval -> result (list row);
  pg_commit : option exn;                            (* [Some e]: raises [e] *)
  pg_rollback : option exn;
  pg_lost : exn -> bool;
}.

(** ** The manager and its state *)

Record Database := {
  connection : option nat;   (* [None], or a connection object *)
  _config : pyval;           (* [None], or the cached configuration *)
  cursor : option nat;       (* the attribute [cursor], when the instance
                                has one: a cursor, given by its connection *)
}.

(** Program state: the manager, the connection objects created so far
    (their [closed] flag, by identity) and what was printed. *)
Record St := {
  self : Database;
  conns : list bool;
  stdout : list string;
}.

(** [Database.__init__]: it creates [connection] and [_config], and no
    attribute [cursor]. *)
Definition __init__ : Database :=
  {| connection := None; _config := PNone; cursor := None |}.

Definition M (A : Type) : Type := World -> Server -> St -> result A * St.

Definition ret {A} (a : A) : M A := fun _ _ s => (Ok a, s).
Definition raise {A} (e : exn) : M A := fun _ _ s => (Raise e, s).
Definition lift {A} (r : result A) : M A := fun _ _ s => (r, s).

Definition bind {A B} (m : M A) (k : A -> M B) : M B := fun w db s =>
  match m w db s with
  | (Ok a, s') => k a w db s'
  | (Raise e, s') => (Raise e, s')
  end.

Notation "x <- m ;; k" := (bind m (fun x => k))
  (at level 100, m at next level, right associativity).
Notation "m ;;; k" := (bind m (fun _ => k))
  (at level 100, right associativity).

(** [try: m  except Exception as e: h e] *)
Definition try_except {A} (m : M A) (h : exn -> M A) : M A := fun w db s =>
  match m w db s with
  | (Ok a, s') => (Ok a, s')
  | (Raise e, s') => h e w db s'
  end.

Definition ask : M World := fun w _ s => (Ok w, s).
Definition server : M Server := fun _ db s => (Ok db, s).
Definition get : M St := fun _ _ s => (Ok s, s).
Definition get_self : M Database := fun _ _ s => (Ok (self s), s).

Definition print (line : string) : M unit := fun _ _ s =>
  (Ok tt, {| self := self s; conns := conns s; stdout := stdout s ++ [line] |}).

(** [self._config = c] *)
Definition set_config (c : pyval) : M unit := fun _ _ s =>
  (Ok tt, {| self := {| connection := connection (self s); _config := c;
                cursor := cursor (self s) |};
             conns := conns s; stdout := stdout s |}).

(** [self.connection = c] *)
Definition set_connection (c : nat) : M unit := fun _ _ s =>
  (Ok tt, {| self := {| connection := Some c; _config := _config (self s);
                cursor := cursor (self s) |};
             conns := conns s; stdout := stdout s |}).

(** ** Configuration resolution: [_load_config] *)

Definition config_keys : list string :=
  ["dbname"; "user"; "password"; "host"; "port"].

(** The dict built from the environment (lines 22-28). *)
Definition env_config (w : World) : gmap string pyval :=
  <["port" := PStr (getenv_default w "DB_PORT" "5432")]>
  (<["host" := getenv_val w "DB_HOST"]>
  (<["password" := getenv_val w "DB_PASSWORD"]>
  (<["user" := getenv_val w "DB_USER"]>
  (<["dbname" := getenv_val w "DB_NAME"]> ∅)))).

(** [all(d.values())] *)
Definition all_values (d : gmap string pyval) : bool :=
  forallb truthy (map_to_list d).*2.

(** The four candidate locations (lines 35-40). *)
Definition possible_paths (w : World) : list string :=
  [ path_join (path_join (default "." (meipass w)) "database") "config.json";
    path_join (module_dir w) "config.json";
    path_join (path_join (exe_dir w) "database") "config.json";
    path_join (exe_dir w) "config.json" ].

(** The merge loop (lines 48-50): the variable consulted for [key] is
    [DB_] followed by the key in upper case. *)
Fixpoint merge_env (keys : list string) (file_config : pyval) : M pyval :=
  match keys with
  | [] => ret file_config
  | key :: rest =>
      w <- ask ;;
      if truthy (getenv_val w ("DB_" ++ upper key))
      then file_config' <- lift (setitem file_config key
                                   (getenv_val w ("DB_" ++ upper key))) ;;
           merge_env rest file_config'
      else merge_env rest file_config
  end.

(** The body of the [try] (lines 44-53): [Some c] when it returns [c],
    [None] when the file does not exist and the loop goes on. *)
Definition try_path (config_path : string) : M (option pyval) :=
  w <- ask ;;
  match fs w config_path with
  | Missing => ret None
  | Broken e => raise e
  | Parsed v =>
      file_config <- merge_env config_keys v ;;
      set_config file_config ;;;
      print ("[DEBUG] Loaded config from " ++ config_path) ;;;
      ret (Some file_config)
  end.

(** The [for] loop (lines 42-55). *)
Fixpoint probe (paths : list string) : M (option pyval) :=
  match paths with
  | [] => ret None
  | config_path :: rest =>
      r <- try_except (try_path config_path)
             (fun e =>
                print ("[WARNING] Could NOT load config from " ++ config_path
                         ++ ": " ++ exn_msg e) ;;;
                ret None) ;;
      match r with
      | Some c => ret (Some c)
      | None => probe rest
      end
  end.

Definition fallback_config : gmap string pyval :=
  <["port" := PStr "5432"]>
  (<["host" := PStr "localhost"]>
  (<["password" := PStr "papersync2025"]>
  (<["user" := PStr "postgres"]>
  (<["dbname" := PStr "DB_PAPERSYNC"]> ∅)))).

Definition fallback_warning : string :=
  "[WARNING] Using fallback configuration. Consider using config.json or environment variables.".

Definition _load_config : M pyval :=
  me <- get_self ;;
  if truthy (_config me) then ret (_config me)
  else
    w <- ask ;;
    let config := env_config w in
    if all_values config
    then set_config (PDict config) ;;; ret (PDict config)
    else
      r <- probe (possible_paths w) ;;
      match r with
      | Some file_config => ret file_config
      | None =>
          print fallback_warning ;;;
          set_config (PDict fallback_config) ;;;
          ret (PDict fallback_config)
      end.

(** ** The connection: [connect], [get_cursor], [close]

    The class body defines [get_cursor], [close] and [get_user_first_name]
    twice; a later [def] rebinds the name, so the methods of the class are
    the second definitions (lines 111, 125 and 130). *)

(** [conn.closed] of connection object [c]. *)
Definition conn_closed (s : St) (c : nat) : bool := default true (conns s !! c).

(** [psycopg2.connect(...)]: raises, or creates a new open connection. *)
Definition psycopg2_connect (a : conn_args) : M nat := fun _ db s =>
  match pg_connect db a with
  | Some e => (Raise e, s)
  | None => (Ok (length (conns s)),
             {| self := self s; conns := conns s ++ [false]; stdout := stdout s |})
  end.

(** [conn.close()] *)
Definition connection_close (c : nat) : M unit := fun _ _ s =>
  (Ok tt, {| self := self s; conns := <[c := true]> (conns s); stdout := stdout s |}).

(** The keyword arguments of the call, lines 78-82. *)
Definition connect_args (config : pyval) : result conn_args :=
  match getitem config "dbname" with
  | Raise e => Raise e
  | Ok dbname =>
  match getitem config "user" with
  | Raise e => Raise e
  | Ok user =>
  match getitem config "password" with
  | Raise e => Raise e
  | Ok password =>
  match getitem config "host" with
  | Raise e => Raise e
  | Ok host =>
  match getitem config "port" with
  | Raise e => Raise e
  | Ok port =>
      Ok {| a_dbname := dbname; a_user := user; a_password := password;
            a_host := host; a_port := port |}
  end end end end end.

(** Lines 74-89.  [traceback.print_exc()] writes to standard error, which
    is not part of the state. *)
Definition connect_new : M nat :=
  config <- _load_config ;;
  try_except
    (args <- lift (connect_args config) ;;
     c <- psycopg2_connect args ;;
     set_connection c ;;;
     print "[INFO] Successfully connected to PostgreSQL" ;;;
     ret c)
    (fun e =>
       print "[ERROR] Failed to connect to PostgreSQL:" ;;;
       raise (Exn ConnectionError ("Database connection failed: " ++ exn_msg e))).

Definition connect : M nat :=
  s <- get ;;
  match connection (self s) with
  | Some c => if negb (conn_closed s c) then ret c else connect_new
  | None => connect_new
  end.

(** [conn.cursor()]: the cursor is represented by its connection. *)
Definition connection_cursor (c : nat) : M nat :=
  s <- get ;;
  if conn_closed s c
  then raise (Exn InterfaceError "connection already closed")
  else ret c.

(** Lines 111-115. *)
Definition get_cursor : M nat :=
  me <- get_self ;;
  match connection me with
  | Some c => connection_cursor c
  | None => raise (Exn Exception "No active database connection.")
  end.

(** The driver raises [e] on the open connection [c]: when the connection
    is lost with it, the driver flags the connection closed. *)
Definition driver_failure {A} (c : nat) (e : exn) : M A :=
  db <- server ;;
  (if pg_lost db e then connection_close c else ret tt) ;;;
  raise e.

(** [conn.commit()] and [conn.rollback()], the server's answer being
    [outcome]. *)
Definition connection_end_transaction (outcome : Server -> option exn) (c : nat)
  : M unit :=
  s <- get ;;
  if conn_closed s c
  then raise (Exn InterfaceError "connection already closed")
  else
    db <- server ;;
    match outcome db with
    | Some e => driver_failure c e
    | None => ret tt
    end.

Definition commit : M unit :=
  me <- get_self ;;
  match connection me with
  | Some c => connection_end_transaction pg_commit c
  | None => ret tt
  end.

Definition rollback : M unit :=
  me <- get_self ;;
  match connection me with
  | Some c => connection_end_transaction pg_rollback c
  | None => ret tt
  end.

(** Lines 125-128. *)
Definition close : M unit :=
  me <- get_self ;;
  match connection me with
  | Some c => connection_close c ;;; print "Database connection closed."
  | None => ret tt
  end.

(** ** Queries *)

(** [cur.execute(sql, params)]: the rows the cursor then holds. *)
Definition cursor_execute (cur : nat) (sql : string) (params : pyval) : M (list row) :=
  s <- get ;;
  if conn_closed s cur
  then raise (Exn InterfaceError "cursor already closed")
  else
    db <- server ;;
    match pg_execute db sql params with
    | Ok rows => ret rows
    | Raise e => driver_failure cur e
    end.

(** [cur.fetchone()] after [execute]. *)
Definition fetchone (rows : list row) : option row := head rows.

(** Truth value of what [fetchone] returns: [None] or a tuple. *)
Definition row_truthy (r : option row) : bool :=
  match r with
  | Some (_ :: _) => true
  | _ => false
  end.

Definition to_py (x : sqlval) : pyval :=
  match x with
  | SNull => PNone
  | SText s => PStr s
  | SInt z => PInt z
  end.

(** [result[0]] *)
Definition first_item (r : option row) : result pyval :=
  match r with
  | Some (x :: _) => Ok (to_py x)
  | Some [] => Raise (Exn Exception "tuple index out of range")
  | None => Raise (Exn TypeError "'NoneType' object is not subscriptable")
  end.

(** [str(x)], as an f-string formats a cell. *)
Definition sql_str (x : sqlval) : string :=
  match x with
  | SNull => "None"
  | SText s => s
  | SInt z => pretty z
  end.

(** ** [str.strip]

    A [str] is held as its UTF-8 encoding.  The characters that
    [str.strip()] removes are those for which [str.isspace()] holds:
    U+0009-000D, U+001C-0020, U+0085, U+00A0, U+1680, U+2000-200A, U+2028,
    U+2029, U+202F, U+205F and U+3000, of one, two or three bytes. *)
Definition is_space (c : ascii) : bool :=
  let n := nat_of_ascii c in
  ((9 <=? n)%nat && (n <=? 13)%nat) || ((28 <=? n)%nat && (n <=? 32)%nat).

Definition is_space2 (c1 c2 : ascii) : bool :=
  let n1 := nat_of_ascii c1 in
  let n2 := nat_of_ascii c2 in
  (n1 =? 194)%nat && ((n2 =? 133)%nat || (n2 =? 160)%nat).

Definition is_space3 (c1 c2 c3 : ascii) : bool :=
  let n1 := nat_of_ascii c1 in
  let n2 := nat_of_ascii c2 in
  let n3 := nat_of_ascii c3 in
  ((n1 =? 225)%nat && (n2 =? 154)%nat && (n3 =? 128)%nat)
  || ((n1 =? 226)%nat && (n2 =? 128)%nat &&
      (((128 <=? n3)%nat && (n3 <=? 138)%nat)
       || (n3 =? 168)%nat || (n3 =? 169)%nat || (n3 =? 175)%nat))
  || ((n1 =? 226)%nat && (n2 =? 129)%nat && (n3 =? 159)%nat)
  || ((n1 =? 227)%nat && (n2 =? 128)%nat && (n3 =? 128)%nat).

Section Strip.

(** Whether the first one, two or three bytes are to be removed. *)
Variable p1 : ascii -> bool.
Variable p2 : ascii -> ascii -> bool.
Variable p3 : ascii -> ascii -> ascii -> bool.

Fixpoint lstrip_with (l : list ascii) : list ascii :=
  match l with
  | c1 :: l1 =>
      if p1 c1 then lstrip_with l1
      else match l1 with
           | c2 :: l2 =>
               if p2 c1 c2 then lstrip_with l2
               else match l2 with
                    | c3 :: l3 => if p3 c1 c2 c3 then lstrip_with l3 else l
                    | [] => l
                    end
           | [] => l
           end
  | [] => []
  end.

Definition starts_with (l : list ascii) : bool :=
  match l with
  | c1 :: l1 =>
      p1 c1 ||
      match l1 with
      | c2 :: l2 =>
          p2 c1 c2 ||
          match l2 with
          | c3 :: _ => p3 c1 c2 c3
          | [] => false
          end
      | [] => false
      end
  | [] => false
  end.

End Strip.

(** White space removed at the front. *)
Definition lstrip (l : list ascii) : list ascii :=
  lstrip_with is_space is_space2 is_space3 l.

(** White space removed at the end: at the front of the reversed bytes,
    where the bytes of a character come last first. *)
Definition rstrip (l : list ascii) : list ascii :=
  rev (lstrip_with is_space (fun c2 c1 => is_space2 c1 c2)
         (fun c3 c2 c1 => is_space3 c1 c2 c3) (rev l)).

Definition strip (s : string) : string :=
  string_of_list_ascii (rstrip (lstrip (list_ascii_of_string s))).

Definition sql_first_name : string :=
  "SELECT STAFF_FIRSTNAME FROM STAFF WHERE STAFF_USERNAME = %s".
Definition sql_staff_id : string :=
  "SELECT STAFF_ID FROM STAFF WHERE STAFF_USERNAME = %s".
Definition sql_staff_name : string :=
  "SELECT STAFF_FIRSTNAME, STAFF_LASTNAME FROM STAFF WHERE STAFF_ID = %s".

(** Lines 130-141. *)
Definition get_user_first_name (username : pyval) : M pyval :=
  cursor <- get_cursor ;;
  rows <- cursor_execute cursor sql_first_name (PList [username]) ;;
  let result := fetchone rows in
  if row_truthy result then lift (first_item result) else ret PNone.

(** The first definition of the name, lines 101-109, which the second one
    replaces: the same body inside a [try]. *)
Definition get_user_first_name_replaced (username : pyval) : M pyval :=
  try_except
    (cursor <- get_cursor ;;
     rows <- cursor_execute cursor sql_first_name (PList [username]) ;;
     let result := fetchone rows in
     if row_truthy result then lift (first_item result) else ret PNone)
    (fun e =>
       print ("[ERROR] Failed to fetch user name: " ++ exn_msg e) ;;;
       ret PNone).

(** Lines 146-150. *)
Definition get_staff_id (username : pyval) : M pyval :=
  cursor <- get_cursor ;;
  rows <- cursor_execute cursor sql_staff_id (PList [username]) ;;
  let result := fetchone rows in
  if row_truthy result then lift (first_item result) else ret PNone.

(** [firstname, lastname = result] *)
Definition unpack2 (r : option row) : result (sqlval * sqlval) :=
  match r with
  | Some [a; b] => Ok (a, b)
  | Some (_ :: _ :: _ :: _) => Raise (Exn ValueError "too many values to unpack (expected 2)")
  | Some _ => Raise (Exn ValueError "not enough values to unpack (expected 2)")
  | None => Raise (Exn TypeError "cannot unpack non-iterable NoneType object")
  end.

(** Lines 153-172; [staff_id] is [None] or a number. *)
Definition get_staff_name_by_id (staff_id : option Z) : M pyval :=
  match staff_id with
  | None => ret PNone
  | Some id =>
      try_except
        (cur <- get_cursor ;;
         rows <- cursor_execute cur sql_staff_name (PList [PInt id]) ;;
         let result := fetchone rows in
         if row_truthy result
         then names <- lift (unpack2 result) ;;
              ret (PStr (strip (sql_str names.1 ++ " " ++ sql_str names.2)))
         else ret PNone)
        (fun e =>
           print ("Error fetching staff name (ID: " ++ pretty id ++ "): "
                    ++ exn_msg e) ;;;
           ret PNone)
  end.

(** Lines 174-181. *)
Definition fetch_all (query : string) (params : pyval) : M (list row) :=
  me <- get_self ;;
  match connection me with
  | None => raise (Exn Exception "Database connection is not established.")
  | Some _ =>
      cursor <- get_cursor ;;
      results <- cursor_execute cursor query
                   (if truthy params then params else PList []) ;;
      ret results
  end.

(** [self.cursor]: the class has no attribute of that name, so that the
    lookup raises unless the instance has been given one. *)
Definition self_cursor : M nat :=
  me <- get_self ;;
  match cursor me with
  | Some cur => ret cur
  | None => raise (Exn AttributeError "'Database' object has no attribute 'cursor'")
  end.

(** Lines 183-190. *)
Definition fetch_one (query : string) (params : pyval) : M (option row) :=
  try_except
    (connect ;;;
     cursor <- self_cursor ;;
     rows <- cursor_execute cursor query params ;;
     ret (fetchone rows))
    (fun e =>
       print ("Error in fetch_one: " ++ exn_msg e) ;;;
       ret None).

(** ** Sample worlds *)

(** A fresh manager in a fresh process. *)
Definition init_state : St := {| self := __init__; conns := []; stdout := [] |}.

Definition no_server : Server :=
  {| pg_connect := fun _ => Some (Exn OperationalError "connection refused");
     pg_execute := fun _ _ => Raise (Exn OperationalError "server closed the connection");
     pg_commit := Some (Exn OperationalError "server closed the connection");
     pg_rollback := Some (Exn OperationalError "server closed the connection");
     pg_lost := fun _ => true |}.

(** A server that accepts every connection and holds one member of staff. *)
Definition demo_server : Server :=
  {| pg_connect := fun _ => None;
     pg_execute := fun sql params =>
       match params with
       | PList [PInt 1%Z] =>
           if String.eqb sql sql_staff_name
           then Ok [[SText "Ada"; SText "Lovelace"]] else Ok []
       | PList [PStr "ada"] =>
           if String.eqb sql sql_first_name then Ok [[SText "Ada"]]
           else if String.eqb sql sql_staff_id then Ok [[SInt 1]] else Ok []
       | _ => Ok []
       end;
     pg_commit := None;
     pg_rollback := None;
     pg_lost := fun _ => false |}.

Definition test_world (env : list (string * string)) (f : string -> file_state) : World :=
  {| environ := list_to_map env; meipass := None; module_dir := "/app/database";
     exe_dir := "/usr/bin"; fs := f |}.

Definition no_files : string -> file_state := fun _ => Missing.

(** One file, at the first candidate path of [test_world]. *)
Definition first_file (v : file_state) : string -> file_state :=
  fun p => if String.eqb p "database/config.json" then v else Missing.

Definition run {A} (m : M A) (w : World) (db : Server) (s : St) : result A * St :=
  m w db s.

(** ** Derived notions and sample states *)

(** The dict holding five given strings. *)
Definition config_of (dbname user password host port : string) : gmap string pyval :=
  <["port" := PStr port]>
  (<["host" := PStr host]>
  (<["password" := PStr password]>
  (<["user" := PStr user]>
  (<["dbname" := PStr dbname]> ∅)))).

(** The state after [self._config = c]. *)
Definition with_config (c : pyval) (s : St) : St :=
  {| self := {| connection := connection (self s); _config := c;
                cursor := cursor (self s) |};
     conns := conns s; stdout := stdout s |}.

(** Four variables set, [DB_PORT] unset, and a config file present at
    the first candidate path. *)
Definition env_world : World :=
  test_world [("DB_NAME", "papersync"); ("DB_USER", "app");
              ("DB_PASSWORD", "s3cret"); ("DB_HOST", "db.local")]
    (first_file (Parsed (PDict (config_of "x" "y" "z" "h" "1")))).

(** The state after the [try] body returned [c] from [config_path]. *)
Definition loaded (config_path : string) (c : pyval) (s : St) : St :=
  {| self := {| connection := connection (self s); _config := c;
                cursor := cursor (self s) |};
     conns := conns s;
     stdout := stdout s ++ ["[DEBUG] Loaded config from " ++ config_path] |}.

(** No variable set; the first candidate exists and is not valid JSON. *)
Definition broken_world : World :=
  test_world []
    (first_file (Broken (Exn ValueError "Expecting value: line 1 column 1 (char 0)"))).

(** All five keys present with a non-empty value, in the sense of the
    test [all(config.values())] of the source. *)
Definition fully_populated (c : pyval) : bool :=
  match c with
  | PDict d =>
      forallb (fun k => match d !! k with
                        | Some v => truthy v
                        | None => false
                        end) config_keys
  | _ => false
  end.

(** Some variable that the merge loop consults is non-empty. *)
Definition overrides (w : World) : bool :=
  existsb (fun key => truthy (getenv_val w ("DB_" ++ upper key))) config_keys.

(** The merge loop does not raise on [v]: it assigns into [v] only when a
    variable is non-empty, and only a dict takes the assignment. *)
Definition mergeable (w : World) (v : pyval) : bool :=
  match v with
  | PDict _ => true
  | _ => negb (overrides w)
  end.

(** The [try] body returns at [p]: the file exists, parses and merges. *)
Definition usable (w : World) (p : string) : bool :=
  match fs w p with
  | Parsed v => mergeable w v
  | _ => false
  end.

(** A file with a database name and a user and nothing else, at the first
    candidate path; no variable set. *)
Definition partial_file : gmap string pyval :=
  <["user" := PStr "app"]> (<["dbname" := PStr "papersync"]> ∅).

Definition partial_world : World :=
  test_world [] (first_file (Parsed (PDict partial_file))).

(** The same file, with a complete environment set. *)
Definition env_partial_world : World :=
  test_world [("DB_NAME", "papersync"); ("DB_USER", "app");
              ("DB_PASSWORD", "s3cret"); ("DB_HOST", "db.local")]
    (first_file (Parsed (PDict partial_file))).

(** A complete file at the second candidate path, the first being broken,
    with the user overridden by the environment. *)
Definition file_world : World :=
  test_world [("DB_USER", "app")]
    (fun p =>
       if String.eqb p "database/config.json"
       then Broken (Exn ValueError "Expecting value: line 1 column 1 (char 0)")
       else if String.eqb p "/app/database/config.json"
       then Parsed (PDict (config_of "papersync" "postgres" "pw" "db.local" "5433"))
       else if String.eqb p "/usr/bin/database/config.json"
       then Parsed (PDict partial_file)
       else Missing).

(** An empty JSON object at the first candidate path; no variable set. *)
Definition empty_file_world : World :=
  test_world [] (first_file (Parsed (PDict ∅))).

Definition first_path (w : World) : string :=
  path_join (path_join (default "." (meipass w)) "database") "config.json".

(** The variable the specification pairs with each key (its section 6). *)
Definition spec_variables : list (string * string) :=
  [("dbname", "DB_NAME"); ("user", "DB_USER"); ("password", "DB_PASSWORD");
   ("host", "DB_HOST"); ("port", "DB_PORT")].

(** The merge in the words of the specification: each key is overwritten
    by its variable exactly when the variable is set. *)
Definition spec_merge (w : World) (d : gmap string pyval) : gmap string pyval :=
  foldr (fun kv acc =>
           match environ w !! kv.2 with
           | Some v => <[kv.1 := PStr v]> acc
           | None => acc
           end) d spec_variables.

(** What the merge loop of the source computes on a dict. *)
Definition merged (w : World) (keys : list string) (d : gmap string pyval)
  : gmap string pyval :=
  foldl (fun acc key =>
           if truthy (getenv_val w ("DB_" ++ upper key))
           then <[key := getenv_val w ("DB_" ++ upper key)]> acc
           else acc) d keys.

(** The value of [key] after the merge, when [var] is its variable. *)
Definition overridden (w : World) (var : string) (old : option pyval) : option pyval :=
  match environ w !! var with
  | Some v => if String.eqb v "" then old else Some (PStr v)
  | None => old
  end.

(** [DB_USER] set to the empty string, and a complete file at the first
    candidate path. *)
Definition empty_user_world : World :=
  test_world [("DB_USER", "")]
    (first_file (Parsed (PDict (config_of "papersync" "postgres" "pw" "db.local" "5433")))).

(** The host overridden, the port kept, an extra field passed through. *)
Definition override_file : gmap string pyval :=
  <["sslmode" := PStr "require"]>
    (config_of "papersync" "postgres" "pw" "localhost" "5433").

Definition override_world : World :=
  test_world [("DB_HOST", "db.internal")] (first_file (Parsed (PDict override_file))).

Definition db_name_world : World :=
  test_world [("DB_NAME", "production")]
    (first_file (Parsed (PDict (config_of "papersync" "postgres" "pw" "db.local" "5433")))).

(** [self.connection and not self.connection.closed] *)
Definition is_open (s : St) : bool :=
  match connection (self s) with
  | Some c => negb (conn_closed s c)
  | None => false
  end.

(** The state after a successful [psycopg2.connect] in state [s]. *)
Definition connected (s : St) : St :=
  {| self := {| connection := Some (length (conns s)); _config := _config (self s);
                cursor := cursor (self s) |};
     conns := conns s ++ [false];
     stdout := stdout s ++ ["[INFO] Successfully connected to PostgreSQL"] |}.

Definition connect_failed (s : St) : St :=
  {| self := self s; conns := conns s;
     stdout := stdout s ++ ["[ERROR] Failed to connect to PostgreSQL:"] |}.

(** No variable, no file: the fallback configuration is used. *)
Definition bare_world : World := test_world [] no_files.

(** The manager after a first successful [connect]. *)
Definition connected_state : St := (connect bare_world demo_server init_state).2.

(** A JSON array at the first candidate path, with and without a
    variable that the merge loop would write into it. *)
Definition array_world (env : list (string * string)) : World :=
  test_world env (first_file (Parsed (PList [PInt 1]))).

(** The state after the driver flagged connection [c] closed. *)
Definition mark_closed (c : nat) (s : St) : St :=
  {| self := self s; conns := <[c := true]> (conns s); stdout := stdout s |}.

(** The state after the driver raised [e] on the open connection [c]. *)
Definition after_failure (db : Server) (c : nat) (e : exn) (s : St) : St :=
  if pg_lost db e then mark_closed c s else s.

(** ** Reachable states *)

(** A call of a method of the class, with its arguments. *)
Inductive call :=
| call_load_config
| call_connect
| call_get_cursor
| call_commit
| call_rollback
| call_close
| call_get_user_first_name (username : pyval)
| call_get_staff_id (username : pyval)
| call_get_staff_name_by_id (staff_id : option Z)
| call_fetch_all (query : string) (params : pyval)
| call_fetch_one (query : string) (params : pyval).

(** The state a computation leaves, whether it returns or raises. *)
Definition after {A} (m : M A) (w : World) (db : Server) (s : St) : St :=
  (m w db s).2.

Definition exec (c : call) : World -> Server -> St -> St :=
  match c with
  | call_load_config => after _load_config
  | call_connect => after connect
  | call_get_cursor => after get_cursor
  | call_commit => after commit
  | call_rollback => after rollback
  | call_close => after close
  | call_get_user_first_name username => after (get_user_first_name username)
  | call_get_staff_id username => after (get_staff_id username)
  | call_get_staff_name_by_id staff_id => after (get_staff_name_by_id staff_id)
  | call_fetch_all query params => after (fetch_all query params)
  | call_fetch_one query params => after (fetch_one query params)
  end.

(** The states a manager reaches from [Database()] through calls of its
    methods, in worlds that may change from call to call; in between, the
    connection objects may be closed by whoever holds them and other code
    may print. *)
Inductive reachable : St -> Prop :=
| reach_new h out : reachable {| self := __init__; conns := h; stdout := out |}
| reach_call c w db s : reachable s -> reachable (exec c w db s)
| reach_env s h out :
    reachable s -> reachable {| self := self s; conns := h; stdout := out |}.

(** A computation that leaves the attribute [cursor] as it found it. *)
Definition keeps_cursor {A} (m : M A) : Prop :=
  forall w db s, cursor (self (m w db s).2) = cursor (self s).

(** A manager whose attribute [cursor] has been set from outside the
    class, on an open connection. *)
Definition patched_state : St :=
  {| self := {| connection := Some 0; _config := PNone; cursor := Some 0 |};
     conns := [false]; stdout := [] |}.

(** ** Frames and ownership *)

(** A computation all of whose runs, returning or raising, relate the
    state before to the state after by [R], which may depend on the server. *)
Definition preserves {A} (R : Server -> St -> St -> Prop) (m : M A) : Prop :=
  forall w db s, R db s (m w db s).2.

(** The manager's connection and the connection objects are the same. *)
Definition same_connections (s s' : St) : Prop :=
  connection (self s') = connection (self s) /\ conns s' = conns s.

(** The manager's connection is the same, no connection object has been
    created, and none that was closed is open. *)
Definition only_closes (s s' : St) : Prop :=
  connection (self s') = connection (self s) /\
  length (conns s') = length (conns s) /\
  forall i, conns s' !! i = Some false -> conns s !! i = Some false.

(** What a method that only reads may do to the connections against the
    server [db]: close some, and nothing when [db] loses no connection. *)
Definition reader_effect (db : Server) (s s' : St) : Prop :=
  only_closes s s' /\
  ((forall e, pg_lost db e = false) -> conns s' = conns s).

(** Every connection object that is open is the manager's current one. *)
Definition owns_open (s : St) : Prop :=
  forall i, conns s !! i = Some false -> connection (self s) = Some i.

(** The manager's connection, if any, is one of the connection objects. *)
Definition connection_valid (s : St) : Prop :=
  forall c, connection (self s) = Some c -> c < length (conns s).

(** The states reached from a fresh manager in a fresh process by calls of
    its methods alone, in worlds that may change from call to call. *)
Inductive reachable_alone : St -> Prop :=
| alone_new : reachable_alone init_state
| alone_call c w db s : reachable_alone s -> reachable_alone (exec c w db s).

(** The methods other than [connect], [close] and [fetch_one]. *)
Definition reads_only (c : call) : bool :=
  match c with
  | call_connect | call_close | call_fetch_one _ _ => false
  | _ => true
  end.

(** A manager that connected, closed, and connected again. *)
Definition reconnected_state : St :=
  exec call_connect bare_world demo_server
    (exec call_close bare_world demo_server
       (exec call_connect bare_world demo_server init_state)).

(** ** Output of the probing loop *)

(** The state after further lines were printed. *)
Definition add_output (lines : list string) (s : St) : St :=
  {| self := self s; conns := conns s; stdout := (stdout s ++ lines)%list |}.

Definition warning_line (config_path : string) (e : exn) : string :=
  "[WARNING] Could NOT load config from " ++ config_path ++ ": " ++ exn_msg e.

Definition debug_line (config_path : string) : string :=
  "[DEBUG] Loaded config from " ++ config_path.

(** The warnings for the candidates of [paths] that exist and fail to load. *)
Fixpoint skipped_output (w : World) (paths : list string) : list string :=
  match paths with
  | [] => []
  | p :: rest =>
      match fs w p with
      | Broken e => warning_line p e :: skipped_output w rest
      | _ => skipped_output w rest
      end
  end.

(** No variable that the merge loop consults has a non-empty value. *)
Definition no_override (w : World) : Prop :=
  forall key, In key config_keys ->
    truthy (getenv_val w ("DB_" ++ upper key)) = false.

(** A broken file first, a missing one next, then a complete file at the
    directory of the executable; the port overridden. *)
Definition third_path_world : World :=
  test_world [("DB_PORT", "6543")]
    (fun p =>
       if String.eqb p "database/config.json"
       then Broken (Exn ValueError "Expecting value: line 1 column 1 (char 0)")
       else if String.eqb p "/usr/bin/database/config.json"
       then Parsed (PDict (config_of "papersync" "postgres" "pw" "db.local" "5433"))
       else Missing).

(** ** Further sample states *)

(** A world in which everything differs from [bare_world]: a complete
    environment set and a file. *)
Definition other_world : World := env_world.

(** The manager after the partial file has been loaded. *)
Definition partial_state : St :=
  after _load_config partial_world no_server init_state.

(** The manager after [connect] and [close]. *)
Definition closed_state : St :=
  exec call_close bare_world demo_server connected_state.

(** The first of the five keys that a dict lacks. *)
Definition first_missing (d : gmap string pyval) : option string :=
  find (fun k => bool_decide (d !! k = None)) config_keys.

(** ** Look-ups and traces *)

(** The body that [get_user_first_name] and [get_staff_id] share, for the
    statement [sql]. *)
Definition first_column_lookup (sql : string) (username : pyval) : M pyval :=
  cursor <- get_cursor ;;
  rows <- cursor_execute cursor sql (PList [username]) ;;
  let result := fetchone rows in
  if row_truthy result then lift (first_item result) else ret PNone.

(** The line [get_staff_name_by_id] prints when it fails. *)
Definition staff_error_line (id : Z) (e : exn) : string :=
  "Error fetching staff name (ID: " ++ pretty id ++ "): " ++ exn_msg e.

(** A sequence of calls, each in its own world and against its own server. *)
Definition run_calls (calls : list (call * World * Server)) (s : St) : St :=
  foldl (fun st cw => exec cw.1.1 cw.1.2 cw.2 st) s calls.

(** The cached configuration, once non-empty, is kept. *)
Definition config_kept (_ : Server) (s s' : St) : Prop :=
  truthy (_config (self s)) = true -> _config (self s') = _config (self s).

(** Neither the first nor the last character is white space. *)
Definition trimmed (s : string) : Prop :=
  starts_with is_space is_space2 is_space3 (list_ascii_of_string s) = false /\
  starts_with is_space (fun c2 c1 => is_space2 c1 c2)
    (fun c3 c2 c1 => is_space3 c1 c2 c3) (rev (list_ascii_of_string s)) = false.

(** U+00A0, the no-break space. *)
Definition nbsp : string := String (ascii_of_nat 194) (String (ascii_of_nat 160) "").

(** A server whose only member of staff has white space around the names. *)
Definition padded_server : Server :=
  {| pg_connect := fun _ => None;
     pg_execute := fun _ _ => Ok [[SText "  Ada"; SText ("Lovelace " ++ nbsp)]];
     pg_commit := None;
     pg_rollback := None;
     pg_lost := fun _ => false |}.

(** A server that accepts connections and fails every statement. *)
Definition failing_server : Server :=
  {| pg_connect := fun _ => None;
     pg_execute := fun _ _ =>
       Raise (Exn ProgrammingError "relation STAFF does not exist");
     pg_commit := None;
     pg_rollback := None;
     pg_lost := fun _ => false |}.

(** ** What is printed *)

(** The messages of the exceptions the merge loop can raise, one for each
    type of JSON value that is not an object. *)
Definition merge_messages : list string :=
  ["list indices must be integers or slices, not str";
   "'NoneType' object does not support item assignment";
   "'bool' object does not support item assignment";
   "'int' object does not support item assignment";
   "'float' object does not support item assignment";
   "'str' object does not support item assignment"].

Definition merge_error (e : exn) : Prop :=
  exn_cls e = TypeError /\ In (exn_msg e) merge_messages.

(** The lines that concern the candidate paths [paths]: a file loaded, or
    a file that failed to load or to merge. *)
Definition path_line (w : World) (paths : list string) (l : string) : Prop :=
  exists p, In p paths /\
    (l = debug_line p \/
     exists e, l = warning_line p e /\ (fs w p = Broken e \/ merge_error e)).

Definition load_line (w : World) (l : string) : Prop :=
  l = fallback_warning \/ path_line w (possible_paths w) l.

Definition connect_line (w : World) (l : string) : Prop :=
  load_line w l \/
  l = "[INFO] Successfully connected to PostgreSQL" \/
  l = "[ERROR] Failed to connect to PostgreSQL:".

(** The password is the one thing that differs from the fallback. *)
Definition secret_world : World :=
  test_world [("DB_NAME", "DB_PAPERSYNC"); ("DB_USER", "postgres");
              ("DB_PASSWORD", "hunter2"); ("DB_HOST", "localhost")] no_files.

(** * Properties *)

Ltac munfold :=
  unfold run, bind, ret, raise, lift, try_except, ask, server, get, get_self,
    print, set_config, set_connection in *.

(** ** Truth values and dicts *)

Lemma truthy_PStr s : truthy (PStr s) = true <-> s <> "".
Proof.
  simpl. destruct (String.eqb_spec s ""); simpl; split; congruence.
Qed.

Lemma all_values_spec (d : gmap string pyval) :
  all_values d = true <-> forall k v, d !! k = Some v -> truthy v = true.
Proof.
  unfold all_values. rewrite forallb_forall. split.
  - intros H k v Hk. apply H. apply list_elem_of_In.
    apply list_elem_of_fmap. exists (k, v). split; [done|].
    by apply elem_of_map_to_list.
  - intros H v Hv. apply list_elem_of_In in Hv.
    apply list_elem_of_fmap in Hv as [[k v'] [-> Hkv]].
    apply elem_of_map_to_list in Hkv. eauto.
Qed.

Lemma env_config_complete (w : World) :
  all_values (env_config w) = true <->
  truthy (getenv_val w "DB_NAME") = true /\
  truthy (getenv_val w "DB_USER") = true /\
  truthy (getenv_val w "DB_PASSWORD") = true /\
  truthy (getenv_val w "DB_HOST") = true /\
  truthy (PStr (getenv_default w "DB_PORT" "5432")) = true.
Proof.
  rewrite all_values_spec. unfold env_config. split.
  - intros H. repeat split.
    + apply (H "dbname"). by simplify_map_eq.
    + apply (H "user"). by simplify_map_eq.
    + apply (H "password"). by simplify_map_eq.
    + apply (H "host"). by simplify_map_eq.
    + apply (H "port"). by simplify_map_eq.
  - intros (Hn & Hu & Hp & Hh & Hpt) k v Hk.
    repeat (apply lookup_insert_Some in Hk as [[<- <-]|[_ Hk]]; [done|]).
    by rewrite lookup_empty in Hk.
Qed.

(** ** Resolution from the environment *)

(** C1: when [DB_NAME], [DB_USER], [DB_PASSWORD] and [DB_HOST] are set and
    non-empty and [DB_PORT] is unset (then "5432") or set and non-empty,
    the first call of [_load_config] returns exactly these five values,
    whatever the file system holds, and caches them. *)
Theorem load_config_env_complete (w : World) (db : Server) (s : St)
    (name user password host : string) :
  _config (self s) = PNone ->
  environ w !! "DB_NAME" = Some name -> name <> "" ->
  environ w !! "DB_USER" = Some user -> user <> "" ->
  environ w !! "DB_PASSWORD" = Some password -> password <> "" ->
  environ w !! "DB_HOST" = Some host -> host <> "" ->
  environ w !! "DB_PORT" <> Some "" ->
  let port := default "5432" (environ w !! "DB_PORT") in
  let c := PDict (config_of name user password host port) in
  _load_config w db s = (Ok c, with_config c s).
Proof.
  intros Hc Hn Hn' Hu Hu' Hp Hp' Hh Hh' Hport port c.
  assert (Hall : all_values (env_config w) = true).
  { apply env_config_complete. unfold getenv_val, getenv, getenv_default.
    rewrite Hn, Hu, Hp, Hh. rewrite !truthy_PStr. repeat split; try done.
    destruct (environ w !! "DB_PORT") as [pt|] eqn:E; simpl; congruence. }
  assert (Heq : env_config w = config_of name user password host port).
  { unfold env_config, config_of, getenv_val, getenv, getenv_default.
    by rewrite Hn, Hu, Hp, Hh. }
  unfold _load_config. munfold. rewrite Hc. simpl.
  rewrite Hall. subst c. by rewrite Heq.
Qed.

Lemma load_config_env_complete_witness :
  _load_config env_world no_server init_state
  = (Ok (PDict (config_of "papersync" "app" "s3cret" "db.local" "5432")),
     with_config (PDict (config_of "papersync" "app" "s3cret" "db.local" "5432"))
       init_state).
Proof.
  refine (load_config_env_complete env_world no_server init_state
            "papersync" "app" "s3cret" "db.local" _ _ _ _ _ _ _ _ _ _);
    vm_compute; congruence.
Defined.

(** ** The probing loop *)

(** The merge loop reads the environment only: it leaves the state alone
    and its result does not depend on it. *)
Lemma merge_env_pure keys v w db s :
  merge_env keys v w db s = ((merge_env keys v w db init_state).1, s).
Proof.
  revert v s. induction keys as [|key rest IH]; intros v s; [done|].
  simpl. munfold.
  destruct (truthy (getenv_val w ("DB_" ++ upper key))); [|apply IH].
  destruct (setitem v key _) as [v'|e]; [apply IH|done].
Qed.

Lemma merge_env_cons key rest v w db s :
  merge_env (key :: rest) v w db s =
    if truthy (getenv_val w ("DB_" ++ upper key))
    then match setitem v key (getenv_val w ("DB_" ++ upper key)) with
         | Ok v' => merge_env rest v' w db s
         | Raise e => (Raise e, s)
         end
    else merge_env rest v w db s.
Proof.
  simpl. munfold. by destruct (truthy (getenv_val w ("DB_" ++ upper key))).
Qed.

#[local] Arguments merge_env : simpl never.

Lemma merge_env_dict keys d w db :
  (merge_env keys (PDict d) w db init_state).1 = Ok (PDict (merged w keys d)).
Proof.
  revert d. induction keys as [|key rest IH]; intros d; [reflexivity|].
  rewrite merge_env_cons. simpl.
  destruct (truthy (getenv_val w ("DB_" ++ upper key))); apply IH.
Qed.

Lemma try_path_Parsed p v w db s :
  fs w p = Parsed v ->
  try_path p w db s =
    match (merge_env config_keys v w db init_state).1 with
    | Ok c => (Ok (Some c), loaded p c s)
    | Raise e => (Raise e, s)
    end.
Proof.
  intros Hp. unfold try_path. munfold. rewrite Hp.
  rewrite merge_env_pure. by destruct (merge_env _ _ _ _ _).1.
Qed.

Lemma probe_Parsed p rest v c w db s :
  fs w p = Parsed v ->
  (merge_env config_keys v w db init_state).1 = Ok c ->
  probe (p :: rest) w db s = (Ok (Some c), loaded p c s).
Proof.
  intros Hp Hm. simpl. munfold. fold (try_path p w db s).
  by rewrite (try_path_Parsed _ _ _ _ _ Hp), Hm.
Qed.

(** The loop itself never raises. *)
Lemma probe_returns paths w db s :
  exists r s', probe paths w db s = (Ok r, s').
Proof.
  revert s. induction paths as [|p rest IH]; intros s; [by eexists _, _|].
  simpl. munfold. destruct (try_path p w db s) as [[[c|]|e] s1]; eauto.
Qed.

(** It touches neither the connection nor the connection objects. *)
Lemma probe_frame paths w db s r s' :
  probe paths w db s = (r, s') ->
  connection (self s') = connection (self s) /\ conns s' = conns s.
Proof.
  revert s. induction paths as [|p rest IH]; intros s; simpl; munfold.
  { by intros [= _ <-]. }
  unfold try_path. munfold.
  destruct (fs w p) as [|e|v].
  - apply IH.
  - intros H. apply IH in H. by simpl in H.
  - rewrite merge_env_pure. destruct (merge_env _ _ _ _ _).1 as [c|e].
    + by intros [= _ <-].
    + intros H. apply IH in H. by simpl in H.
Qed.

(** When it returns a config, the config is cached and is the merge of a
    candidate file that parsed. *)
Lemma probe_Some paths w db s c s' :
  probe paths w db s = (Ok (Some c), s') ->
  _config (self s') = c /\
  exists p v, In p paths /\ fs w p = Parsed v /\
              (merge_env config_keys v w db init_state).1 = Ok c.
Proof.
  revert s. induction paths as [|p rest IH]; intros s; simpl; munfold; [done|].
  unfold try_path. munfold.
  destruct (fs w p) as [|e|v] eqn:Hp.
  - intros H. apply IH in H as (? & q & v0 & ? & ? & ?). eauto 10.
  - intros H. apply IH in H as (? & q & v0 & ? & ? & ?). eauto 10.
  - rewrite merge_env_pure. destruct (merge_env _ _ _ _ _).1 as [c'|e] eqn:Hm.
    + intros [= <- <-]. eauto 10.
    + intros H. apply IH in H as (? & q & v0 & ? & ? & ?). eauto 10.
Qed.

(** When it falls through, the cache is as before. *)
Lemma probe_None paths w db s s' :
  probe paths w db s = (Ok None, s') -> _config (self s') = _config (self s).
Proof.
  revert s. induction paths as [|p rest IH]; intros s; simpl; munfold.
  { by intros [= <-]. }
  unfold try_path. munfold.
  destruct (fs w p) as [|e|v] eqn:Hp.
  - apply IH.
  - intros H. by apply IH in H.
  - rewrite merge_env_pure. destruct (merge_env _ _ _ _ _).1 as [c'|e] eqn:Hm.
    + done.
    + intros H. by apply IH in H.
Qed.


(** ** Resolution as a whole *)

Lemma load_config_returns w db s :
  exists c s', _load_config w db s = (Ok c, s').
Proof.
  unfold _load_config. munfold.
  destruct (truthy (_config (self s))); [by eexists _, _|].
  destruct (all_values (env_config w)); [by eexists _, _|].
  destruct (probe_returns (possible_paths w) w db s) as ([c|] & s1 & ->);
    by eexists _, _.
Qed.

Lemma load_config_frame w db s r s' :
  _load_config w db s = (r, s') ->
  connection (self s') = connection (self s) /\ conns s' = conns s.
Proof.
  unfold _load_config. munfold.
  destruct (truthy (_config (self s))); [by intros [= _ <-]|].
  destruct (all_values (env_config w)); [by intros [= _ <-]|].
  destruct (probe _ w db s) as [[[c|]|e] s1] eqn:Hp;
    apply probe_frame in Hp; by intros [= _ <-].
Qed.

(** What a call returns is what the manager then caches. *)
Lemma load_config_caches w db s c s' :
  _load_config w db s = (Ok c, s') -> _config (self s') = c.
Proof.
  unfold _load_config. munfold.
  destruct (truthy (_config (self s))) eqn:Ht; [by intros [= <- <-]|].
  destruct (all_values (env_config w)); [by intros [= <- <-]|].
  destruct (probe _ w db s) as [[[c'|]|e] s1] eqn:Hp.
  - intros [= <- <-]. by apply probe_Some in Hp as [? _].
  - by intros [= <- <-].
  - done.
Qed.

(** The three sources of an uncached call. *)
Lemma load_config_sources w db s c s' :
  truthy (_config (self s)) = false ->
  _load_config w db s = (Ok c, s') ->
  (all_values (env_config w) = true /\ c = PDict (env_config w)) \/
  (exists p v, In p (possible_paths w) /\ fs w p = Parsed v /\
               (merge_env config_keys v w db init_state).1 = Ok c) \/
  c = PDict fallback_config.
Proof.
  intros Ht. unfold _load_config. munfold. rewrite Ht.
  destruct (all_values (env_config w)) eqn:Hall.
  { intros [= <- <-]. left. split; reflexivity. }
  destruct (probe _ w db s) as [[[c'|]|e] s1] eqn:Hp.
  - intros [= <- <-]. right; left. apply probe_Some in Hp as [_ ?]. assumption.
  - intros [= <- <-]. right; right. reflexivity.
  - intros H. discriminate H.
Qed.



(** ** Fully populated configs *)

Lemma fully_populated_spec c :
  fully_populated c = true <->
  exists d, c = PDict d /\
    forall k, In k config_keys -> exists v, d !! k = Some v /\ truthy v = true.
Proof.
  split.
  - destruct c as [| | | | |d]; try discriminate.
    unfold fully_populated. intros H.
    exists d. split; [reflexivity|].
    rewrite forallb_forall in H. intros k Hk. specialize (H k Hk).
    destruct (d !! k) as [v|]; [eauto|discriminate].
  - intros (d & -> & H). unfold fully_populated.
    apply forallb_forall. intros k Hk.
    destruct (H k Hk) as (v & -> & Hv). exact Hv.
Qed.

Lemma setitem_populated v k x c :
  fully_populated v = true -> truthy x = true ->
  setitem v k x = Ok c -> fully_populated c = true.
Proof.
  rewrite !fully_populated_spec. intros (d & -> & H) Hx [= <-].
  eexists. split; [reflexivity|]. intros k' Hk'.
  destruct (decide (k = k')) as [->|Hne].
  - exists x. rewrite lookup_insert_eq. auto.
  - rewrite lookup_insert_ne by exact Hne. auto.
Qed.

Lemma merge_env_populated keys v w db c :
  fully_populated v = true ->
  (merge_env keys v w db init_state).1 = Ok c ->
  fully_populated c = true.
Proof.
  revert v. induction keys as [|key rest IH]; intros v Hv.
  { intros [= <-]. exact Hv. }
  rewrite merge_env_cons.
  destruct (truthy (getenv_val w ("DB_" ++ upper key))) eqn:Ht; [|apply IH, Hv].
  destruct (setitem v key _) as [v'|e] eqn:Hs; [|discriminate].
  apply IH. eapply setitem_populated; eassumption.
Qed.

Lemma env_config_populated w :
  all_values (env_config w) = true -> fully_populated (PDict (env_config w)) = true.
Proof.
  rewrite all_values_spec. intros H. apply fully_populated_spec.
  eexists. split; [reflexivity|]. intros k Hk.
  assert (Hin : is_Some (env_config w !! k)).
  { unfold env_config. simpl in Hk.
    destruct Hk as [<-|[<-|[<-|[<-|[<-|[]]]]]]; simplify_map_eq; eauto. }
  destruct Hin as [v Hv]. exists v. split; [exact Hv|]. eapply H, Hv.
Qed.

(** C4, as stated, fails: the partial file is returned as it is, without
    password, host or port, instead of being fallen through. *)
Lemma load_config_partial_file :
  _load_config partial_world no_server init_state
    = (Ok (PDict partial_file),
       loaded "database/config.json" (PDict partial_file) init_state) /\
  fully_populated (PDict partial_file) = false /\
  partial_file !! "password" = None.
Proof. vm_compute. repeat split; reflexivity. Qed.

Lemma merge_env_no_override keys v w db :
  (forall key, In key keys -> truthy (getenv_val w ("DB_" ++ upper key)) = false) ->
  (merge_env keys v w db init_state).1 = Ok v.
Proof.
  induction keys as [|key rest IH]; intros H; [reflexivity|].
  rewrite merge_env_cons, (H key) by (by left).
  apply IH. intros k Hk. apply H. by right.
Qed.

Lemma merge_env_non_object keys v w db key :
  (forall d, v <> PDict d) ->
  In key keys ->
  truthy (getenv_val w ("DB_" ++ upper key)) = true ->
  exists msg, (merge_env keys v w db init_state).1 = Raise (Exn TypeError msg).
Proof.
  intros Hv. induction keys as [|k rest IH]; intros Hin Hkey; [destruct Hin|].
  rewrite merge_env_cons.
  destruct (truthy (getenv_val w ("DB_" ++ upper k))) eqn:Hk.
  - destruct v as [| | | | |d]; simpl; eauto. by destruct (Hv d).
  - destruct Hin as [->|Hin]; [congruence|]. by apply IH.
Qed.

Lemma merge_env_mergeable v w db :
  if mergeable w v
  then exists c, (merge_env config_keys v w db init_state).1 = Ok c
  else exists e, (merge_env config_keys v w db init_state).1 = Raise e.
Proof.
  assert (Hno : overrides w = false ->
                (merge_env config_keys v w db init_state).1 = Ok v).
  { intros Ho. apply merge_env_no_override. intros key Hkey.
    unfold overrides in Ho. rewrite <- not_true_iff_false, existsb_exists in Ho.
    apply not_true_is_false. intros Ht. apply Ho. eauto. }
  assert (Hyes : (forall d, v <> PDict d) -> overrides w = true ->
                 exists e, (merge_env config_keys v w db init_state).1 = Raise e).
  { intros Hv Ho. unfold overrides in Ho. apply existsb_exists in Ho as (key & Hkey & Ht).
    destruct (merge_env_non_object config_keys v w db key Hv Hkey Ht) as [msg ->].
    eauto. }
  unfold mergeable.
  destruct v as [| | | | |d]; [..|rewrite merge_env_dict; eauto];
    (destruct (overrides w); simpl; [apply Hyes; done|eauto]).
Qed.

(** Candidates at which the [try] body does not return are passed over;
    the manager and the connection objects are as before. *)
Lemma probe_skip_unusable pre rest w db s :
  (forall q, In q pre -> usable w q = false) ->
  exists s1, probe (pre ++ rest) w db s = probe rest w db s1 /\
             self s1 = self s /\ conns s1 = conns s.
Proof.
  revert s. induction pre as [|q pre IH]; intros s Hpre; [by exists s|].
  assert (Hrest : forall q', In q' pre -> usable w q' = false)
    by (intros q' ?; apply Hpre; by right).
  assert (Hq : usable w q = false) by (apply Hpre; by left).
  change ((q :: pre) ++ rest)%list with (q :: (pre ++ rest))%list.
  cbn [probe]. munfold. unfold try_path. munfold. unfold usable in Hq.
  destruct (fs w q) as [|e|v] eqn:Hfs.
  - by apply IH.
  - destruct (IH {| self := self s; conns := conns s;
                    stdout := stdout s ++
                      ["[WARNING] Could NOT load config from " ++ q ++ ": " ++ exn_msg e] |}
                 Hrest) as (s1 & -> & ? & ?). eauto.
  - rewrite merge_env_pure.
    pose proof (merge_env_mergeable v w db) as Hm. rewrite Hq in Hm.
    destruct Hm as [e ->].
    destruct (IH {| self := self s; conns := conns s;
                    stdout := stdout s ++
                      ["[WARNING] Could NOT load config from " ++ q ++ ": " ++ exn_msg e] |}
                 Hrest) as (s1 & -> & ? & ?). eauto.
Qed.

(** C4, amended: an uncached call returns a fully populated config when
    the environment set is complete, whatever the files hold; when the
    environment set is incomplete and the [try] body returns at no
    candidate, it returns the fallback, which is fully populated; and when
    it takes the config from a file, the first candidate at which the
    [try] body returns, the config is fully populated provided that file's
    object is, whatever the later candidates hold.  Files are not checked
    for completeness. *)
Theorem load_config_populated (w : World) (db : Server) (s : St) :
  truthy (_config (self s)) = false ->
  exists c s',
    _load_config w db s = (Ok c, s') /\
    (all_values (env_config w) = true -> fully_populated c = true) /\
    (all_values (env_config w) = false ->
     (forall q, In q (possible_paths w) -> usable w q = false) ->
     c = PDict fallback_config /\ fully_populated c = true) /\
    (forall pre p post v,
       all_values (env_config w) = false ->
       possible_paths w = (pre ++ p :: post)%list ->
       (forall q, In q pre -> usable w q = false) ->
       fs w p = Parsed v ->
       fully_populated v = true ->
       fully_populated c = true).
Proof.
  intros Ht.
  destruct (load_config_returns w db s) as (c & s' & Hrun).
  exists c, s'. split; [exact Hrun|].
  unfold _load_config in Hrun. munfold. rewrite Ht in Hrun.
  destruct (all_values (env_config w)) eqn:Hall.
  - injection Hrun as <- _.
    split; [intros _; by apply env_config_populated|].
    split; [discriminate|]. intros pre p post v Hf. discriminate Hf.
  - split; [discriminate|]. split.
    + intros _ Hno.
      destruct (probe_skip_unusable (possible_paths w) [] w db s Hno)
        as (s1 & Hp & _ & _).
      rewrite app_nil_r in Hp. rewrite Hp in Hrun. simpl in Hrun. munfold.
      injection Hrun as <- _. split; [reflexivity|]. vm_compute. reflexivity.
    + intros pre p post v _ Hpaths Hpre Hfs Hv.
      destruct (probe_skip_unusable pre (p :: post) w db s Hpre)
        as (s1 & Hp & _ & _).
      rewrite Hpaths, Hp in Hrun.
      apply fully_populated_spec in Hv as (d & -> & Hd).
      rewrite (probe_Parsed _ _ _ _ _ _ _ Hfs (merge_env_dict _ _ _ _)) in Hrun.
      assert (Hc : Ok (PDict (merged w config_keys d)) = Ok c)
        by exact (f_equal fst Hrun).
      rewrite <- (merge_env_dict config_keys d w db) in Hc.
      eapply merge_env_populated; [|exact Hc].
      apply fully_populated_spec. eauto.
Qed.

Lemma load_config_populated_witness :
  (exists c s', _load_config env_partial_world no_server init_state = (Ok c, s') /\
                fully_populated c = true) /\
  (exists c s', _load_config (array_world [("DB_USER", "app")]) no_server init_state
                  = (Ok c, s') /\
                c = PDict fallback_config /\ fully_populated c = true) /\
  (exists c s', _load_config file_world no_server init_state = (Ok c, s') /\
                fully_populated c = true).
Proof.
  split; [|split].
  - destruct (load_config_populated env_partial_world no_server init_state eq_refl)
      as (c & s' & Hrun & Ha & _ & _).
    exists c, s'. split; [exact Hrun|]. apply Ha. vm_compute. reflexivity.
  - destruct (load_config_populated (array_world [("DB_USER", "app")]) no_server
                init_state eq_refl) as (c & s' & Hrun & _ & Hb & _).
    exists c, s'. split; [exact Hrun|]. apply Hb; [vm_compute; reflexivity|].
    intros q Hq. vm_compute in Hq.
    destruct Hq as [<-|[<-|[<-|[<-|[]]]]]; vm_compute; reflexivity.
  - destruct (load_config_populated file_world no_server init_state eq_refl)
      as (c & s' & Hrun & _ & _ & Hc).
    exists c, s'. split; [exact Hrun|].
    apply (Hc ["database/config.json"] "/app/database/config.json"
              ["/usr/bin/database/config.json"; "/usr/bin/config.json"]
              (PDict (config_of "papersync" "postgres" "pw" "db.local" "5433")));
      try (vm_compute; reflexivity).
    intros q [<-|[]]. vm_compute. reflexivity.
Defined.

(** ** The cache *)

(** C9, as stated, fails: the first call returns the empty object of the
    file, the test [if self._config] then takes the cache for unset, and a
    second call, made after the environment changed, resolves again and
    returns the new environment values. *)
Lemma load_config_not_memoized :
  let r1 := _load_config empty_file_world no_server init_state in
  let r2 := _load_config env_world no_server r1.2 in
  r1.1 = Ok (PDict ∅) /\
  r2.1 = Ok (PDict (config_of "papersync" "app" "s3cret" "db.local" "5432")) /\
  r2.1 <> r1.1.
Proof.
  vm_compute. repeat split; try reflexivity. discriminate.
Qed.

Lemma populated_truthy c : fully_populated c = true -> truthy c = true.
Proof.
  intros H. apply fully_populated_spec in H as (d & -> & H).
  destruct (H "dbname") as (v & Hv & _); [by left|].
  simpl. destruct (Nat.eqb_spec (size d) 0) as [Hz|]; [|reflexivity].
  apply map_size_empty_inv in Hz. subst d. by rewrite lookup_empty in Hv.
Qed.

(** C9, amended: once a call has returned a config that is not empty (as
    every fully populated one), every later call returns that same config
    and changes nothing, whatever the environment and the files then are. *)
Theorem load_config_memoized (w1 : World) (db1 : Server) (s : St)
    (c : pyval) (s1 : St) :
  _load_config w1 db1 s = (Ok c, s1) ->
  truthy c = true ->
  forall (w2 : World) (db2 : Server), _load_config w2 db2 s1 = (Ok c, s1).
Proof.
  intros Hrun Hc w2 db2. apply load_config_caches in Hrun.
  unfold _load_config. munfold. rewrite Hrun, Hc. reflexivity.
Qed.

Lemma load_config_memoized_witness :
  _load_config broken_world no_server
    (with_config (PDict (config_of "papersync" "app" "s3cret" "db.local" "5432"))
       init_state)
  = (Ok (PDict (config_of "papersync" "app" "s3cret" "db.local" "5432")),
     with_config (PDict (config_of "papersync" "app" "s3cret" "db.local" "5432"))
       init_state).
Proof.
  refine (load_config_memoized env_world no_server init_state _ _ _ _
            broken_world no_server).
  - vm_compute. reflexivity.
  - vm_compute. reflexivity.
Defined.

(** ** Merging a file with the environment *)

Lemma truthy_getenv w var :
  truthy (getenv_val w var) =
    match environ w !! var with
    | Some v => negb (String.eqb v "")
    | None => false
    end.
Proof. unfold getenv_val, getenv. by destruct (environ w !! var). Qed.

Lemma merged_step_lookup w key (d : gmap string pyval) k :
  (if truthy (getenv_val w ("DB_" ++ upper key))
   then <[key := getenv_val w ("DB_" ++ upper key)]> d else d) !! k
  = if decide (key = k) then overridden w ("DB_" ++ upper key) (d !! k) else d !! k.
Proof.
  rewrite truthy_getenv. unfold overridden, getenv_val, getenv.
  destruct (environ w !! ("DB_" ++ upper key)) as [v|];
    [destruct (String.eqb v "")|]; simpl;
    destruct (decide (key = k)) as [->|Hne]; try reflexivity.
  - apply lookup_insert_eq.
  - by apply lookup_insert_ne.
Qed.

Lemma merged_cons w key rest d :
  merged w (key :: rest) d =
    merged w rest (if truthy (getenv_val w ("DB_" ++ upper key))
                   then <[key := getenv_val w ("DB_" ++ upper key)]> d else d).
Proof. reflexivity. Qed.

Lemma merged_app w pre post d :
  merged w (pre ++ post) d = merged w post (merged w pre d).
Proof. apply foldl_app. Qed.

Lemma merged_lookup_other w keys d k :
  ~ In k keys -> merged w keys d !! k = d !! k.
Proof.
  revert d. induction keys as [|key rest IH]; intros d Hk; [reflexivity|].
  rewrite merged_cons, IH.
  - rewrite merged_step_lookup. destruct (decide (key = k)) as [->|]; [|reflexivity].
    exfalso. apply Hk. by left.
  - intros ?. apply Hk. by right.
Qed.

Lemma merged_lookup_key w pre key post d :
  ~ In key post ->
  merged w (pre ++ key :: post) d !! key
  = overridden w ("DB_" ++ upper key) (merged w pre d !! key).
Proof.
  intros Hpost. rewrite merged_app, merged_cons.
  rewrite merged_lookup_other by exact Hpost.
  rewrite merged_step_lookup. by rewrite decide_True.
Qed.

Lemma load_config_first_file w db s d :
  truthy (_config (self s)) = false ->
  all_values (env_config w) = false ->
  fs w (first_path w) = Parsed (PDict d) ->
  _load_config w db s =
    (Ok (PDict (merged w config_keys d)),
     loaded (first_path w) (PDict (merged w config_keys d)) s).
Proof.
  intros Ht Hall Hfile. unfold _load_config. munfold. rewrite Ht, Hall.
  change (possible_paths w) with
    (first_path w :: [path_join (module_dir w) "config.json";
                      path_join (path_join (exe_dir w) "database") "config.json";
                      path_join (exe_dir w) "config.json"]).
  rewrite (probe_Parsed _ _ _ _ _ _ _ Hfile (merge_env_dict _ _ _ _)).
  reflexivity.
Qed.

(** C2, as stated, fails: [DB_USER] is set, to the empty string, and the
    user of the file is returned all the same, since the source overwrites
    a key only when [os.getenv] gives a non-empty value. *)
Lemma load_config_set_but_empty :
  let file := config_of "papersync" "postgres" "pw" "db.local" "5433" in
  let r := _load_config empty_user_world no_server init_state in
  environ empty_user_world !! "DB_USER" = Some "" /\
  spec_merge empty_user_world file !! "user" = Some (PStr "") /\
  r.1 = Ok (PDict file) /\
  r.1 <> Ok (PDict (spec_merge empty_user_world file)).
Proof.
  vm_compute. repeat split; try reflexivity. discriminate.
Qed.

(** C2, amended: on an uncached call with an incomplete environment set
    and a JSON object at the first candidate path, the result is that
    object with each of [user], [password], [host] and [port] overwritten
    by [DB_USER], [DB_PASSWORD], [DB_HOST] and [DB_PORT] exactly when the
    variable is set and not empty; the fields outside the five keys are the
    file's.  (Nothing is said here of [dbname].) *)
Theorem load_config_file_merge (w : World) (db : Server) (s : St)
    (d : gmap string pyval) :
  truthy (_config (self s)) = false ->
  all_values (env_config w) = false ->
  fs w (first_path w) = Parsed (PDict d) ->
  exists d' s',
    _load_config w db s = (Ok (PDict d'), s') /\
    _config (self s') = PDict d' /\
    d' !! "user" = overridden w "DB_USER" (d !! "user") /\
    d' !! "password" = overridden w "DB_PASSWORD" (d !! "password") /\
    d' !! "host" = overridden w "DB_HOST" (d !! "host") /\
    d' !! "port" = overridden w "DB_PORT" (d !! "port") /\
    forall k, ~ In k config_keys -> d' !! k = d !! k.
Proof.
  intros Ht Hall Hfile.
  exists (merged w config_keys d),
         (loaded (first_path w) (PDict (merged w config_keys d)) s).
  split; [exact (load_config_first_file w db s d Ht Hall Hfile)|].
  split; [reflexivity|].
  repeat split.
  - change config_keys with (["dbname"] ++ "user" :: ["password"; "host"; "port"])%list.
    rewrite merged_lookup_key, merged_lookup_other; [reflexivity|..];
      simpl; intuition discriminate.
  - change config_keys with (["dbname"; "user"] ++ "password" :: ["host"; "port"])%list.
    rewrite merged_lookup_key, merged_lookup_other; [reflexivity|..];
      simpl; intuition discriminate.
  - change config_keys with (["dbname"; "user"; "password"] ++ "host" :: ["port"])%list.
    rewrite merged_lookup_key, merged_lookup_other; [reflexivity|..];
      simpl; intuition discriminate.
  - change config_keys with (["dbname"; "user"; "password"; "host"] ++ "port" :: [])%list.
    rewrite merged_lookup_key, merged_lookup_other; [reflexivity|..];
      simpl; intuition discriminate.
  - intros k Hk. by apply merged_lookup_other.
Qed.

Lemma load_config_file_merge_witness :
  exists d' s',
    _load_config override_world no_server init_state = (Ok (PDict d'), s') /\
    _config (self s') = PDict d' /\
    d' !! "user" = Some (PStr "postgres") /\
    d' !! "password" = Some (PStr "pw") /\
    d' !! "host" = Some (PStr "db.internal") /\
    d' !! "port" = Some (PStr "5433") /\
    forall k, ~ In k config_keys -> d' !! k = override_file !! k.
Proof.
  refine (load_config_file_merge override_world no_server init_state
            override_file _ _ _); vm_compute; reflexivity.
Defined.

(** For [dbname] the loop consults [DB_] followed by the key in upper case,
    which is [DB_DBNAME] and not the [DB_NAME] of lines 23 and of the
    specification. *)
Lemma merge_dbname_variable (w : World) (d : gmap string pyval) :
  merged w config_keys d !! "dbname" = overridden w "DB_DBNAME" (d !! "dbname").
Proof.
  change config_keys with ([] ++ "dbname" :: ["user"; "password"; "host"; "port"])%list.
  rewrite merged_lookup_key; [reflexivity|]. simpl. intuition discriminate.
Qed.

Example load_config_ignores_DB_NAME :
  (_load_config db_name_world no_server init_state).1
  = Ok (PDict (config_of "papersync" "postgres" "pw" "db.local" "5433")).
Proof. vm_compute. reflexivity. Qed.

(** A file that parses, but not to an object: the first assignment of the
    merge loop raises [TypeError], the file is skipped with a warning and,
    here, the fallback is used; when no variable is to be merged the value
    is returned as it is. *)
Example load_config_array_skipped :
  (_load_config (array_world [("DB_USER", "app")]) no_server init_state).1
    = Ok (PDict fallback_config) /\
  (_load_config (array_world []) no_server init_state).1 = Ok (PList [PInt 1]).
Proof. vm_compute. split; reflexivity. Qed.

(** ** The connection life cycle *)

Lemma connect_open w db s :
  is_open s = true ->
  exists c, connection (self s) = Some c /\ connect w db s = (Ok c, s).
Proof.
  unfold is_open, connect. munfold.
  destruct (connection (self s)) as [c|]; [|discriminate].
  intros ->. eauto.
Qed.

Lemma connect_not_open w db s :
  is_open s = false -> connect w db s = connect_new w db s.
Proof.
  unfold is_open, connect. munfold.
  destruct (connection (self s)) as [c|]; [|reflexivity]. by intros ->.
Qed.

Lemma connect_new_success w db s cfg s0 a :
  _load_config w db s = (Ok cfg, s0) ->
  connect_args cfg = Ok a ->
  pg_connect db a = None ->
  connect_new w db s = (Ok (length (conns s0)), connected s0).
Proof.
  intros Hcfg Hargs Hpg. unfold connect_new, psycopg2_connect. munfold.
  rewrite Hcfg, Hargs, Hpg. reflexivity.
Qed.

Lemma connect_new_failure w db s cfg s0 e0 :
  _load_config w db s = (Ok cfg, s0) ->
  connect_args cfg = Raise e0 \/
    (exists a, connect_args cfg = Ok a /\ pg_connect db a = Some e0) ->
  connect_new w db s =
    (Raise (Exn ConnectionError ("Database connection failed: " ++ exn_msg e0)),
     connect_failed s0).
Proof.
  intros Hcfg Hfail. unfold connect_new, psycopg2_connect. munfold.
  rewrite Hcfg. destruct Hfail as [->|(a & -> & ->)]; reflexivity.
Qed.

(** The outcomes of the connecting path. *)
Lemma connect_new_cases w db s :
  exists cfg s0, _load_config w db s = (Ok cfg, s0) /\
    (connect_new w db s = (Ok (length (conns s0)), connected s0) \/
     exists e0, connect_new w db s =
       (Raise (Exn ConnectionError ("Database connection failed: " ++ exn_msg e0)),
        connect_failed s0)).
Proof.
  destruct (load_config_returns w db s) as (cfg & s0 & Hcfg).
  exists cfg, s0. split; [exact Hcfg|].
  destruct (connect_args cfg) as [a|e] eqn:Hargs.
  - destruct (pg_connect db a) as [e|] eqn:Hpg.
    + right. exists e. eapply connect_new_failure; eauto.
    + left. eapply connect_new_success; eauto.
  - right. exists e. eapply connect_new_failure; eauto.
Qed.

(** What [connect] returns is the manager's connection, and it is open. *)
Lemma connect_Ok w db s c s' :
  connect w db s = (Ok c, s') ->
  connection (self s') = Some c /\ conns s' !! c = Some false.
Proof.
  destruct (is_open s) eqn:Hopen.
  - destruct (connect_open w db s Hopen) as (c0 & Hc0 & ->).
    intros [= <- <-]. split; [exact Hc0|].
    unfold is_open, conn_closed in Hopen. rewrite Hc0 in Hopen.
    destruct (conns s !! c0) as [[]|]; done.
  - rewrite (connect_not_open _ _ _ Hopen).
    destruct (connect_new_cases w db s) as (cfg & s0 & _ & [->|[e0 ->]]);
      [|discriminate].
    intros [= <- <-]. split; [reflexivity|]. simpl.
    rewrite lookup_app_r by lia. by rewrite Nat.sub_diag.
Qed.

(** A failing [connect] raises [ConnectionError] and leaves the manager's
    connection and the connection objects as they were. *)
Lemma connect_Raise w db s e s' :
  connect w db s = (Raise e, s') ->
  exn_cls e = ConnectionError /\
  connection (self s') = connection (self s) /\ conns s' = conns s.
Proof.
  destruct (is_open s) eqn:Hopen.
  - destruct (connect_open w db s Hopen) as (c0 & Hc0 & ->). discriminate.
  - rewrite (connect_not_open _ _ _ Hopen).
    destruct (connect_new_cases w db s) as (cfg & s0 & Hcfg & [->|[e0 ->]]);
      [discriminate|].
    intros [= <- <-]. apply load_config_frame in Hcfg. by simpl.
Qed.

(** C5: after a successful [connect], a second [connect] returns the same
    connection and changes nothing, so that no other connection is opened;
    after [close], a [connect] whose driver call succeeds returns a new
    connection object, which is open and becomes the manager's connection,
    the closed one staying closed. *)
Theorem connect_lifecycle (w1 : World) (db1 : Server) (s0 : St) (c : nat) (s1 : St) :
  connect w1 db1 s0 = (Ok c, s1) ->
  (forall w2 db2, connect w2 db2 s1 = (Ok c, s1)) /\
  (forall w2 db2 s2 w3 db3 cfg s2' a,
     close w2 db2 s1 = (Ok tt, s2) ->
     _load_config w3 db3 s2 = (Ok cfg, s2') ->
     connect_args cfg = Ok a ->
     pg_connect db3 a = None ->
     is_open s2 = false /\
     exists c' s3,
       connect w3 db3 s2 = (Ok c', s3) /\
       c' <> c /\
       connection (self s3) = Some c' /\
       conns s3 !! c' = Some false /\
       conns s3 !! c = Some true /\
       length (conns s3) = S (length (conns s1))).
Proof.
  intros Hconn. apply connect_Ok in Hconn as [Hc Hflag]. split.
  - intros w2 db2.
    destruct (connect_open w2 db2 s1) as (c0 & Hc0 & ->).
    + unfold is_open, conn_closed. by rewrite Hc, Hflag.
    + congruence.
  - intros w2 db2 s2 w3 db3 cfg s2' a Hclose Hcfg Hargs Hpg.
    assert (Hlt : c < length (conns s1)) by (eapply lookup_lt_Some; eauto).
    unfold close, connection_close in Hclose. munfold.
    rewrite Hc in Hclose. injection Hclose as <-.
    assert (Hclosed : is_open
      {| self := self s1; conns := <[c:=true]> (conns s1);
         stdout := stdout s1 ++ ["Database connection closed."] |} = false).
    { unfold is_open, conn_closed. simpl. rewrite Hc.
      by rewrite list_lookup_insert_eq. }
    split; [exact Hclosed|].
    rewrite (connect_not_open _ _ _ Hclosed).
    rewrite (connect_new_success _ _ _ _ _ _ Hcfg Hargs Hpg).
    apply load_config_frame in Hcfg as [_ Hconns]. simpl in Hconns.
    eexists _, _. split; [reflexivity|]. simpl. rewrite Hconns.
    rewrite length_insert.
    repeat split.
    + lia.
    + rewrite lookup_app_r by (rewrite length_insert; lia).
      by rewrite length_insert, Nat.sub_diag.
    + rewrite lookup_app_l by (rewrite length_insert; lia).
      by apply list_lookup_insert_eq.
    + rewrite length_app, length_insert. simpl. lia.
Qed.

Lemma connect_lifecycle_witness :
  let s1 := (connect bare_world demo_server init_state).2 in
  let s2 := (close bare_world demo_server s1).2 in
  connect bare_world demo_server s1 = (Ok 0, s1) /\
  is_open s2 = false /\
  exists c' s3,
    connect bare_world demo_server s2 = (Ok c', s3) /\
    c' <> 0 /\
    connection (self s3) = Some c' /\
    conns s3 !! c' = Some false /\
    conns s3 !! 0 = Some true /\
    length (conns s3) = S (length (conns s1)).
Proof.
  intros s1 s2.
  assert (H1 : connect bare_world demo_server init_state = (Ok 0, s1))
    by (vm_compute; reflexivity).
  destruct (connect_lifecycle bare_world demo_server init_state 0 s1 H1) as [Ha Hb].
  split; [apply Ha|].
  apply (Hb bare_world demo_server s2 bare_world demo_server
           (PDict fallback_config) s2
           {| a_dbname := PStr "DB_PAPERSYNC"; a_user := PStr "postgres";
              a_password := PStr "papersync2025"; a_host := PStr "localhost";
              a_port := PStr "5432" |}); vm_compute; reflexivity.
Defined.

(** C6: when the manager has no open connection and [psycopg2.connect]
    raises [e0], [connect] raises a [ConnectionError] carrying the message
    of [e0]; the manager's connection is what it was before the call (unset
    if it was unset) and no connection object has been created. *)
Theorem connect_driver_failure (w : World) (db : Server) (s : St)
    (cfg : pyval) (s0 : St) (a : conn_args) (e0 : exn) :
  is_open s = false ->
  _load_config w db s = (Ok cfg, s0) ->
  connect_args cfg = Ok a ->
  pg_connect db a = Some e0 ->
  exists s',
    connect w db s =
      (Raise (Exn ConnectionError ("Database connection failed: " ++ exn_msg e0)), s') /\
    connection (self s') = connection (self s) /\
    conns s' = conns s /\
    is_open s' = false.
Proof.
  intros Hopen Hcfg Hargs Hpg.
  rewrite (connect_not_open _ _ _ Hopen).
  rewrite (connect_new_failure w db s cfg s0 e0 Hcfg) by eauto.
  apply load_config_frame in Hcfg as [Hc Hh].
  exists (connect_failed s0). split; [reflexivity|].
  assert (Hsame : connection (self (connect_failed s0)) = connection (self s))
    by exact Hc.
  repeat split.
  - exact Hsame.
  - exact Hh.
  - unfold is_open, conn_closed in *. simpl. by rewrite Hc, Hh.
Qed.

Lemma connect_driver_failure_witness :
  exists s',
    connect bare_world no_server init_state =
      (Raise (Exn ConnectionError "Database connection failed: connection refused"), s') /\
    connection (self s') = None /\
    conns s' = [] /\
    is_open s' = false.
Proof.
  apply (connect_driver_failure bare_world no_server init_state
           (PDict fallback_config)
           (_load_config bare_world no_server init_state).2
           {| a_dbname := PStr "DB_PAPERSYNC"; a_user := PStr "postgres";
              a_password := PStr "papersync2025"; a_host := PStr "localhost";
              a_port := PStr "5432" |}
           (Exn OperationalError "connection refused"));
    vm_compute; reflexivity.
Defined.

(** ** The lookup helpers *)

Lemma get_cursor_open w db s :
  is_open s = true ->
  exists c, connection (self s) = Some c /\ conn_closed s c = false /\
            get_cursor w db s = (Ok c, s).
Proof.
  unfold is_open, get_cursor, connection_cursor. munfold.
  destruct (connection (self s)) as [c|]; [|discriminate].
  intros Hopen. apply negb_true_iff in Hopen. rewrite Hopen. eauto.
Qed.

Lemma get_cursor_not_open w db s :
  is_open s = false -> exists e, get_cursor w db s = (Raise e, s).
Proof.
  unfold is_open, get_cursor, connection_cursor. munfold.
  destruct (connection (self s)) as [c|]; [|eauto].
  intros Hopen. apply negb_false_iff in Hopen. rewrite Hopen. eauto.
Qed.

(** A fresh manager asked for a member of staff who exists: C7, as
    stated, fails, since [get_cursor] raises when there is no connection. *)
Lemma staff_name_without_connection :
  pg_execute demo_server sql_staff_name (PList [PInt 1])
    = Ok [[SText "Ada"; SText "Lovelace"]] /\
  (get_staff_name_by_id (Some 1%Z) bare_world demo_server init_state).1 = Ok PNone.
Proof. vm_compute. split; reflexivity. Qed.

(** C7, amended: [get_staff_name_by_id(None)] returns [None] and touches
    nothing, whatever the server would answer; on a manager that holds an
    open connection, an id whose query yields a row returns the first and
    the last name joined by a space and stripped; an id whose query yields
    no row returns [None]; and so does every id when the manager holds no
    open connection. *)
Theorem get_staff_name_by_id_spec (w : World) (db : Server) (s : St) :
  get_staff_name_by_id None w db s = (Ok PNone, s) /\
  (forall id first last rest,
     is_open s = true ->
     pg_execute db sql_staff_name (PList [PInt id]) = Ok ([first; last] :: rest) ->
     get_staff_name_by_id (Some id) w db s
       = (Ok (PStr (strip (sql_str first ++ " " ++ sql_str last))), s)) /\
  (forall id,
     pg_execute db sql_staff_name (PList [PInt id]) = Ok [] ->
     (get_staff_name_by_id (Some id) w db s).1 = Ok PNone) /\
  (forall id,
     is_open s = false ->
     (get_staff_name_by_id (Some id) w db s).1 = Ok PNone).
Proof.
  split; [reflexivity|]. split; [|split].
  - intros id first last rest Hopen Hrows.
    destruct (get_cursor_open w db s Hopen) as (c & _ & Hc & Hcur).
    unfold get_staff_name_by_id, cursor_execute. munfold.
    rewrite Hcur, Hc, Hrows. reflexivity.
  - intros id Hrows. unfold get_staff_name_by_id, cursor_execute. munfold.
    destruct (get_cursor w db s) as [[c|e] s1]; [|reflexivity].
    destruct (conn_closed s1 c); [reflexivity|]. rewrite Hrows. reflexivity.
  - intros id Hopen. unfold get_staff_name_by_id. munfold.
    destruct (get_cursor_not_open w db s Hopen) as (e & ->). reflexivity.
Qed.

Lemma get_staff_name_by_id_spec_witness :
  get_staff_name_by_id (Some 1%Z) bare_world demo_server connected_state
    = (Ok (PStr "Ada Lovelace"), connected_state) /\
  (get_staff_name_by_id (Some 2%Z) bare_world demo_server connected_state).1 = Ok PNone /\
  (get_staff_name_by_id (Some 1%Z) bare_world demo_server init_state).1 = Ok PNone.
Proof.
  destruct (get_staff_name_by_id_spec bare_world demo_server connected_state)
    as (_ & Hrow & Hnone & _).
  destruct (get_staff_name_by_id_spec bare_world demo_server init_state)
    as (_ & _ & _ & Hclosed).
  split; [|split].
  - apply (Hrow 1%Z (SText "Ada") (SText "Lovelace") []); vm_compute; reflexivity.
  - apply Hnone. vm_compute. reflexivity.
  - apply Hclosed. vm_compute. reflexivity.
Defined.

(** A [try] whose handler returns does not raise. *)
Lemma try_except_returns {A} (m : M A) (h : exn -> M A) w db s :
  (forall e s1, exists a s', h e w db s1 = (Ok a, s')) ->
  exists a s', try_except m h w db s = (Ok a, s').
Proof.
  intros Hh. unfold try_except.
  destruct (m w db s) as [[a|e] s1]; [by eexists _, _|apply Hh].
Qed.

(** [get_staff_name_by_id] turns every failure into [None]. *)
Lemma get_staff_name_by_id_never_raises staff_id w db s :
  exists v s', get_staff_name_by_id staff_id w db s = (Ok v, s').
Proof.
  destruct staff_id as [id|]; [|by eexists _, _].
  unfold get_staff_name_by_id. apply try_except_returns. intros e s1. by eexists _, _.
Qed.

(** So did the first definition of [get_user_first_name]. *)
Lemma get_user_first_name_replaced_never_raises username w db s :
  exists v s', get_user_first_name_replaced username w db s = (Ok v, s').
Proof.
  apply try_except_returns. intros e s1. by eexists _, _.
Qed.

(** C8 fails on [get_user_first_name]: the definition in force (lines
    130-141) has no handler, and on a manager without a connection the
    exception of [get_cursor] reaches the caller. *)
Theorem get_user_first_name_propagates :
  get_user_first_name (PStr "ada") bare_world demo_server init_state
    = (Raise (Exn Exception "No active database connection."), init_state).
Proof. reflexivity. Qed.

Lemma driver_failure_run {A} c e w db s :
  @driver_failure A c e w db s = (Raise e, after_failure db c e s).
Proof.
  unfold driver_failure, after_failure, connection_close. munfold.
  by destruct (pg_lost db e).
Qed.

(** A failing statement on an open connection propagates as well, the
    connection being flagged closed when it is lost. *)
Lemma get_user_first_name_query_error (w : World) (db : Server) (s : St)
    (username : pyval) (e : exn) :
  is_open s = true ->
  pg_execute db sql_first_name (PList [username]) = Raise e ->
  exists c, connection (self s) = Some c /\
            get_user_first_name username w db s = (Raise e, after_failure db c e s).
Proof.
  intros Hopen Hq.
  destruct (get_cursor_open w db s Hopen) as (c & Hconn & Hc & Hcur).
  exists c. split; [exact Hconn|].
  unfold get_user_first_name, cursor_execute. munfold.
  by rewrite Hcur, Hc, Hq, driver_failure_run.
Qed.

(** ** The attribute [cursor] and [fetch_one] *)

Create HintDb keeps.

Lemma keeps_ret {A} (a : A) : keeps_cursor (ret a).
Proof. intros w db s. reflexivity. Qed.

Lemma keeps_raise {A} e : keeps_cursor (@raise A e).
Proof. intros w db s. reflexivity. Qed.

Lemma keeps_lift {A} (r : result A) : keeps_cursor (lift r).
Proof. intros w db s. reflexivity. Qed.

Lemma keeps_ask : keeps_cursor ask.
Proof. intros w db s. reflexivity. Qed.

Lemma keeps_server : keeps_cursor server.
Proof. intros w db s. reflexivity. Qed.

Lemma keeps_get : keeps_cursor get.
Proof. intros w db s. reflexivity. Qed.

Lemma keeps_get_self : keeps_cursor get_self.
Proof. intros w db s. reflexivity. Qed.

Lemma keeps_print line : keeps_cursor (print line).
Proof. intros w db s. reflexivity. Qed.

Lemma keeps_set_config c : keeps_cursor (set_config c).
Proof. intros w db s. reflexivity. Qed.

Lemma keeps_set_connection c : keeps_cursor (set_connection c).
Proof. intros w db s. reflexivity. Qed.

Lemma keeps_psycopg2_connect a : keeps_cursor (psycopg2_connect a).
Proof.
  intros w db s. unfold psycopg2_connect. by destruct (pg_connect db a).
Qed.

Lemma keeps_connection_close c : keeps_cursor (connection_close c).
Proof. intros w db s. reflexivity. Qed.

Lemma keeps_bind {A B} (m : M A) (k : A -> M B) :
  keeps_cursor m -> (forall a, keeps_cursor (k a)) -> keeps_cursor (bind m k).
Proof.
  intros Hm Hk w db s. unfold bind. specialize (Hm w db s).
  destruct (m w db s) as [[a|e] s1]; simpl in *; [|exact Hm].
  rewrite <- Hm. apply Hk.
Qed.

Lemma keeps_try_except {A} (m : M A) (h : exn -> M A) :
  keeps_cursor m -> (forall e, keeps_cursor (h e)) -> keeps_cursor (try_except m h).
Proof.
  intros Hm Hh w db s. unfold try_except. specialize (Hm w db s).
  destruct (m w db s) as [[a|e] s1]; simpl in *; [exact Hm|].
  rewrite <- Hm. apply Hh.
Qed.

#[local] Hint Resolve keeps_ret keeps_raise keeps_lift keeps_ask keeps_server
  keeps_get keeps_get_self keeps_print keeps_set_config keeps_set_connection
  keeps_psycopg2_connect keeps_connection_close : keeps.

(** One step through the body of a method. *)
Ltac keeps_step :=
  match goal with
  | |- keeps_cursor (bind _ _) => apply keeps_bind; [|intros ?]
  | |- keeps_cursor (try_except _ _) => apply keeps_try_except; [|intros ?]
  | |- keeps_cursor (match ?x with _ => _ end) => destruct x
  | |- keeps_cursor _ => solve [auto with keeps]
  end.

Ltac keeps_body := repeat keeps_step.

Lemma keeps_merge_env keys v : keeps_cursor (merge_env keys v).
Proof.
  intros w db s. rewrite merge_env_pure. reflexivity.
Qed.

#[local] Hint Resolve keeps_merge_env : keeps.

Lemma keeps_try_path p : keeps_cursor (try_path p).
Proof. unfold try_path. keeps_body. Qed.

#[local] Hint Resolve keeps_try_path : keeps.

Lemma keeps_probe paths : keeps_cursor (probe paths).
Proof.
  induction paths as [|p rest IH]; [apply keeps_ret|].
  cbn [probe]. keeps_body.
Qed.

#[local] Hint Resolve keeps_probe : keeps.

Lemma keeps_load_config : keeps_cursor _load_config.
Proof. unfold _load_config. keeps_body. Qed.

#[local] Hint Resolve keeps_load_config : keeps.

Lemma keeps_connect : keeps_cursor connect.
Proof. unfold connect, connect_new. keeps_body. Qed.

Lemma keeps_get_cursor : keeps_cursor get_cursor.
Proof. unfold get_cursor, connection_cursor. keeps_body. Qed.

Lemma keeps_driver_failure {A} c e : keeps_cursor (@driver_failure A c e).
Proof. unfold driver_failure. keeps_body. Qed.

#[local] Hint Resolve keeps_driver_failure : keeps.

Lemma keeps_cursor_execute cur sql params :
  keeps_cursor (cursor_execute cur sql params).
Proof. unfold cursor_execute. keeps_body. Qed.

Lemma keeps_self_cursor : keeps_cursor self_cursor.
Proof. unfold self_cursor. keeps_body. Qed.

#[local] Hint Resolve keeps_connect keeps_get_cursor keeps_cursor_execute
  keeps_self_cursor : keeps.

(** No method of the class assigns the attribute. *)
Lemma exec_keeps_cursor c w db s : cursor (self (exec c w db s)) = cursor (self s).
Proof.
  assert (H : forall A (m : M A), keeps_cursor m ->
                cursor (self (after m w db s)) = cursor (self s))
    by (intros A m Hm; apply Hm).
  destruct c; cbn [exec]; apply H.
  - apply keeps_load_config.
  - apply keeps_connect.
  - apply keeps_get_cursor.
  - unfold commit, connection_end_transaction. keeps_body.
  - unfold rollback, connection_end_transaction. keeps_body.
  - unfold close. keeps_body.
  - unfold get_user_first_name. keeps_body.
  - unfold get_staff_id. keeps_body.
  - unfold get_staff_name_by_id. keeps_body.
  - unfold fetch_all. keeps_body.
  - unfold fetch_one. keeps_body.
Qed.

Lemma reachable_no_cursor s : reachable s -> cursor (self s) = None.
Proof.
  induction 1 as [h out|c w db s _ IH|s h out _ IH].
  - reflexivity.
  - by rewrite exec_keeps_cursor.
  - exact IH.
Qed.

(** C10: in every state a manager reaches through the methods of the
    class, [fetch_one] returns [None], for every query and parameters and
    in every world: whether [connect] fails or succeeds, the lookup of
    [self.cursor], which no method assigns, raises, and the handler returns
    [None]. *)
Theorem fetch_one_None (w : World) (db : Server) (s : St)
    (query : string) (params : pyval) :
  reachable s ->
  exists s', fetch_one query params w db s = (Ok None, s').
Proof.
  intros Hs. apply reachable_no_cursor in Hs.
  pose proof (keeps_connect w db s) as Hk.
  unfold fetch_one, self_cursor. munfold.
  destruct (connect w db s) as [[c|e] s1]; simpl in Hk; [|eauto].
  rewrite Hk, Hs. eauto.
Qed.

(** A connected manager, with a query that would yield a row. *)
Lemma fetch_one_None_witness :
  exists s', fetch_one sql_first_name (PList [PStr "ada"])
               bare_world demo_server connected_state = (Ok None, s').
Proof.
  apply fetch_one_None. unfold connected_state.
  apply (reach_call call_connect bare_world demo_server init_state).
  apply (reach_new [] []).
Defined.

(** The hypothesis matters: were the attribute set from outside the
    class, the same call would return the row. *)
Example fetch_one_with_cursor :
  (fetch_one sql_first_name (PList [PStr "ada"])
     bare_world demo_server patched_state).1 = Ok (Some [SText "Ada"]).
Proof. reflexivity. Qed.

(** * Further properties *)

(** ** Frames *)

Section Preserves.

Variable R : Server -> St -> St -> Prop.
Hypothesis R_refl : forall db s, R db s s.
Hypothesis R_trans : forall db s1 s2 s3, R db s1 s2 -> R db s2 s3 -> R db s1 s3.

Lemma preserves_ret {A} (a : A) : preserves R (ret a).
Proof. intros w db s. apply R_refl. Qed.

Lemma preserves_raise {A} e : preserves R (@raise A e).
Proof. intros w db s. apply R_refl. Qed.

Lemma preserves_lift {A} (r : result A) : preserves R (lift r).
Proof. intros w db s. apply R_refl. Qed.

Lemma preserves_ask : preserves R ask.
Proof. intros w db s. apply R_refl. Qed.

Lemma preserves_server : preserves R server.
Proof. intros w db s. apply R_refl. Qed.

Lemma preserves_get : preserves R get.
Proof. intros w db s. apply R_refl. Qed.

Lemma preserves_get_self : preserves R get_self.
Proof. intros w db s. apply R_refl. Qed.

Lemma preserves_bind {A B} (m : M A) (k : A -> M B) :
  preserves R m -> (forall a, preserves R (k a)) -> preserves R (bind m k).
Proof.
  intros Hm Hk w db s. unfold bind. specialize (Hm w db s).
  destruct (m w db s) as [[a|e] s1]; simpl in *; [|exact Hm].
  eapply R_trans; [exact Hm|apply Hk].
Qed.

Lemma preserves_try_except {A} (m : M A) (h : exn -> M A) :
  preserves R m -> (forall e, preserves R (h e)) -> preserves R (try_except m h).
Proof.
  intros Hm Hh w db s. unfold try_except. specialize (Hm w db s).
  destruct (m w db s) as [[a|e] s1]; simpl in *; [exact Hm|].
  eapply R_trans; [exact Hm|apply Hh].
Qed.

End Preserves.

Create HintDb pres.

(** One step through the body of a method, for a relation with the given
    proofs of reflexivity and transitivity. *)
Ltac pres_step refl trans :=
  match goal with
  | |- preserves _ (bind _ _) => apply (preserves_bind _ trans); [|intros ?]
  | |- preserves _ (try_except _ _) =>
      apply (preserves_try_except _ trans); [|intros ?]
  | |- preserves _ (match ?x with _ => _ end) => destruct x
  | |- preserves _ (ret _) => apply (preserves_ret _ refl)
  | |- preserves _ (raise _) => apply (preserves_raise _ refl)
  | |- preserves _ (lift _) => apply (preserves_lift _ refl)
  | |- preserves _ ask => apply (preserves_ask _ refl)
  | |- preserves _ server => apply (preserves_server _ refl)
  | |- preserves _ get => apply (preserves_get _ refl)
  | |- preserves _ get_self => apply (preserves_get_self _ refl)
  | |- preserves _ _ => solve [auto with pres]
  end.

(** ** What the reading methods do to the connections *)

Lemma only_closes_refl s : only_closes s s.
Proof. by repeat split. Qed.

Lemma only_closes_trans s1 s2 s3 :
  only_closes s1 s2 -> only_closes s2 s3 -> only_closes s1 s3.
Proof.
  intros (Hc1 & Hl1 & Hf1) (Hc2 & Hl2 & Hf2). repeat split; try congruence.
  intros i Hi. apply Hf1, Hf2, Hi.
Qed.

Lemma reader_effect_refl db s : reader_effect db s s.
Proof. split; [apply only_closes_refl|done]. Qed.

Lemma reader_effect_trans db s1 s2 s3 :
  reader_effect db s1 s2 -> reader_effect db s2 s3 -> reader_effect db s1 s3.
Proof.
  intros [Ho1 Hs1] [Ho2 Hs2]. split; [eapply only_closes_trans; eauto|].
  intros Hno. by rewrite Hs2, Hs1.
Qed.

Lemma mark_closed_only_closes c s : only_closes s (mark_closed c s).
Proof.
  repeat split; simpl; [apply length_insert|].
  intros i Hi. destruct (decide (c = i)) as [->|Hne].
  - apply list_lookup_insert_Some in Hi as [(_ & Hi & _)|[? _]]; congruence.
  - by rewrite list_lookup_insert_ne in Hi.
Qed.

Lemma reader_print line : preserves reader_effect (print line).
Proof. intros w db s. split; [by repeat split|done]. Qed.

Lemma reader_set_config c : preserves reader_effect (set_config c).
Proof. intros w db s. split; [by repeat split|done]. Qed.

Lemma reader_load_config : preserves reader_effect _load_config.
Proof.
  intros w db s. destruct (_load_config w db s) as [r s'] eqn:H.
  apply load_config_frame in H as [Hc Hh]. simpl.
  split; [|done]. repeat split; [done|by rewrite Hh|by rewrite Hh].
Qed.

Lemma reader_driver_failure {A} c e : preserves reader_effect (@driver_failure A c e).
Proof.
  intros w db s. rewrite driver_failure_run. simpl. unfold after_failure.
  destruct (pg_lost db e) eqn:Hlost; [|apply reader_effect_refl].
  split; [apply mark_closed_only_closes|].
  intros Hno. by rewrite Hno in Hlost.
Qed.

#[local] Hint Resolve reader_print reader_set_config reader_load_config
  reader_driver_failure : pres.

Ltac reader_body := repeat pres_step reader_effect_refl reader_effect_trans.

Lemma reader_get_cursor : preserves reader_effect get_cursor.
Proof. unfold get_cursor, connection_cursor. reader_body. Qed.

Lemma reader_cursor_execute cur sql params :
  preserves reader_effect (cursor_execute cur sql params).
Proof. unfold cursor_execute. reader_body. Qed.

Lemma reader_end_transaction outcome c :
  preserves reader_effect (connection_end_transaction outcome c).
Proof. unfold connection_end_transaction. reader_body. Qed.

#[local] Hint Resolve reader_get_cursor reader_cursor_execute
  reader_end_transaction : pres.

Lemma reads_only_effect (c : call) (w : World) (db : Server) (s : St) :
  reads_only c = true -> reader_effect db s (exec c w db s).
Proof.
  assert (H : forall A (m : M A), preserves reader_effect m ->
                reader_effect db s (after m w db s))
    by (intros A m Hm; apply Hm).
  destruct c; try discriminate; intros _; cbn [exec]; apply H.
  - apply reader_load_config.
  - apply reader_get_cursor.
  - unfold commit. reader_body.
  - unfold rollback. reader_body.
  - unfold get_user_first_name. reader_body.
  - unfold get_staff_id. reader_body.
  - unfold get_staff_name_by_id. reader_body.
  - unfold fetch_all. reader_body.
Qed.

(** X1: loading the configuration, [get_cursor], [commit], [rollback],
    the three look-ups and [fetch_all] never open a connection and never
    replace the manager's: after the call, returned or raised,
    [self.connection] is what it was, no connection object has been
    created and none that was closed is open.  The one change they can make
    is that an open connection is flagged closed, when the driver raises
    with the connection lost; against a server that loses no connection
    the connection objects are exactly what they were. *)
Theorem readers_keep_connections (c : call) (w : World) (db : Server) (s : St) :
  reads_only c = true ->
  connection (self (exec c w db s)) = connection (self s) /\
  length (conns (exec c w db s)) = length (conns s) /\
  (forall i, conns (exec c w db s) !! i = Some false -> conns s !! i = Some false) /\
  ((forall e, pg_lost db e = false) -> conns (exec c w db s) = conns s).
Proof.
  intros Hr. destruct (reads_only_effect c w db s Hr) as [(Hc & Hl & Hf) Hs].
  by repeat split.
Qed.

Lemma readers_keep_connections_witness :
  let s' := exec (call_get_staff_name_by_id (Some 1%Z))
              bare_world no_server connected_state in
  connection (self s') = Some 0 /\
  length (conns s') = 1 /\
  (forall i, conns s' !! i = Some false -> conns connected_state !! i = Some false) /\
  ((forall e, pg_lost no_server e = false) -> conns s' = conns connected_state).
Proof.
  apply (readers_keep_connections (call_get_staff_name_by_id (Some 1%Z))
           bare_world no_server connected_state). reflexivity.
Defined.

(** Against the server that is gone, the look-up leaves the connection
    flagged closed. *)
Example lookup_on_lost_connection :
  conns (exec (call_get_staff_name_by_id (Some 1%Z))
           bare_world no_server connected_state) = [true].
Proof. reflexivity. Qed.

(** ** One open connection *)

Lemma same_connections_refl s : same_connections s s.
Proof. by split. Qed.

(** What [connect] does to the connections: nothing, or one new open
    object that becomes the manager's, and this only when the manager had
    no open connection. *)
Lemma connect_effect w db s :
  same_connections s (after connect w db s) \/
  (is_open s = false /\
   connection (self (after connect w db s)) = Some (length (conns s)) /\
   conns (after connect w db s) = (conns s ++ [false])%list).
Proof.
  unfold after. destruct (is_open s) eqn:Hopen.
  - destruct (connect_open w db s Hopen) as (c & _ & ->). left. by split.
  - rewrite (connect_not_open _ _ _ Hopen).
    destruct (connect_new_cases w db s) as (cfg & s0 & Hcfg & [->|[e0 ->]]);
      apply load_config_frame in Hcfg as [Hc Hh]; simpl.
    + right. by rewrite Hh.
    + left. by split.
Qed.

Lemma close_effect w db s :
  connection (self (after close w db s)) = connection (self s) /\
  conns (after close w db s) =
    match connection (self s) with
    | Some c => <[c := true]> (conns s)
    | None => conns s
    end.
Proof.
  unfold after, close, connection_close. munfold.
  destruct (connection (self s)) as [c|] eqn:Hc; simpl; by rewrite ?Hc.
Qed.

(** After its [connect], [fetch_one] can only close. *)
Lemma fetch_one_effect query params w db s :
  only_closes (after connect w db s) (after (fetch_one query params) w db s).
Proof.
  assert (Hrest : preserves reader_effect
            (cursor <- self_cursor ;;
             rows <- cursor_execute cursor query params ;;
             ret (fetchone rows))).
  { unfold self_cursor. reader_body. }
  unfold after, fetch_one, try_except, bind at 1.
  destruct (connect w db s) as [[c|e] s1]; simpl.
  - specialize (Hrest w db s1) as [Hrest _].
    destruct ((cursor <- self_cursor ;;
               rows <- cursor_execute cursor query params ;;
               ret (fetchone rows)) w db s1) as [[r|e] s2]; simpl in *.
    + exact Hrest.
    + destruct Hrest as (? & ? & ?). by repeat split.
  - by repeat split.
Qed.

Lemma owns_open_closes s s' :
  only_closes s s' -> owns_open s -> owns_open s'.
Proof. intros (Hc & _ & Hf) H i Hi. rewrite Hc. apply H, Hf, Hi. Qed.

Lemma connection_valid_closes s s' :
  only_closes s s' -> connection_valid s -> connection_valid s'.
Proof. intros (Hc & Hl & _) H c. rewrite Hc, Hl. apply H. Qed.

Lemma same_only_closes s s' : same_connections s s' -> only_closes s s'.
Proof. intros [Hc Hh]. repeat split; [done|by rewrite Hh|by rewrite Hh]. Qed.

Lemma connect_keeps_single w db s :
  owns_open s /\ connection_valid s ->
  owns_open (after connect w db s) /\ connection_valid (after connect w db s).
Proof.
  intros [Hown Hval].
  destruct (connect_effect w db s) as [Hsame|(Hopen & Hc & Hh)].
  { apply same_only_closes in Hsame.
    split; [eapply owns_open_closes|eapply connection_valid_closes]; eauto. }
  split.
  - intros i. rewrite Hc, Hh. intros Hi.
    destruct (decide (i < length (conns s))) as [Hlt|Hge].
    + rewrite lookup_app_l in Hi by exact Hlt.
      pose proof (Hown i Hi) as Hci.
      unfold is_open, conn_closed in Hopen. by rewrite Hci, Hi in Hopen.
    + apply lookup_lt_Some in Hi. rewrite length_app in Hi. simpl in Hi.
      f_equal. lia.
  - intros c. rewrite Hc, Hh, length_app. intros [= <-]. simpl. lia.
Qed.

Lemma close_keeps_single w db s :
  owns_open s /\ connection_valid s ->
  owns_open (after close w db s) /\ connection_valid (after close w db s).
Proof.
  intros [Hown Hval]. destruct (close_effect w db s) as [Hc Hh]. split.
  - intros i. rewrite Hc, Hh.
    destruct (connection (self s)) as [c|] eqn:E;
      [|intros Hi; rewrite <- E; apply Hown, Hi].
    intros Hi. destruct (decide (c = i)) as [->|Hne]; [reflexivity|].
    rewrite list_lookup_insert_ne in Hi by exact Hne.
    rewrite <- E. apply Hown, Hi.
  - intros c. rewrite Hc, Hh. intros Hcs. specialize (Hval c Hcs).
    rewrite Hcs. by rewrite length_insert.
Qed.

(** X2: a manager used through its methods alone never has two open
    connections: in every state it reaches from [Database()], every open
    connection object is the manager's current connection, so that at most
    one is open, and the current connection is an object that exists. *)
Theorem single_open_connection (s : St) :
  reachable_alone s ->
  owns_open s /\ connection_valid s /\
  (forall i j, conns s !! i = Some false -> conns s !! j = Some false -> i = j).
Proof.
  intros Hs.
  assert (H : owns_open s /\ connection_valid s).
  { induction Hs as [|c w db s _ IH].
    - split; intros i; simpl; [by rewrite lookup_nil|discriminate].
    - destruct (reads_only c) eqn:Hr.
      + destruct (reads_only_effect c w db s Hr) as [Hcl _].
        destruct IH. split;
          [eapply owns_open_closes|eapply connection_valid_closes]; eauto.
      + destruct c; try discriminate; cbn [exec].
        * by apply connect_keeps_single.
        * by apply close_keeps_single.
        * pose proof (fetch_one_effect query params w db s) as Hcl.
          destruct (connect_keeps_single w db s IH). split;
            [eapply owns_open_closes|eapply connection_valid_closes]; eauto. }
  destruct H as [Hown Hval]. repeat split; [exact Hown|exact Hval|].
  intros i j Hi Hj. apply Hown in Hi, Hj. congruence.
Qed.

Lemma single_open_connection_witness :
  conns reconnected_state = [true; false] /\
  connection (self reconnected_state) = Some 1 /\
  owns_open reconnected_state.
Proof.
  split; [reflexivity|]. split; [reflexivity|].
  apply single_open_connection. unfold reconnected_state.
  do 3 apply alone_call. apply alone_new.
Defined.

(** ** The order of the candidates *)

Lemma add_output_nil s : add_output [] s = s.
Proof. destruct s. unfold add_output. simpl. by rewrite app_nil_r. Qed.

Lemma add_output_app l1 l2 s :
  add_output l2 (add_output l1 s) = add_output (l1 ++ l2) s.
Proof. unfold add_output. simpl. by rewrite app_assoc. Qed.

(** Candidates that are missing or fail to load are passed over, the
    failing ones with a warning each. *)
Lemma probe_skip pre rest w db s :
  (forall q v, In q pre -> fs w q <> Parsed v) ->
  probe (pre ++ rest) w db s = probe rest w db (add_output (skipped_output w pre) s).
Proof.
  revert s. induction pre as [|q pre IH]; intros s Hpre.
  { simpl. by rewrite add_output_nil. }
  assert (Hrest : forall q' v, In q' pre -> fs w q' <> Parsed v)
    by (intros q' v ?; apply Hpre; by right).
  change ((q :: pre) ++ rest)%list with (q :: (pre ++ rest))%list.
  cbn [probe skipped_output]. munfold. unfold try_path. munfold.
  destruct (fs w q) as [|e|v] eqn:Hq.
  - by apply IH.
  - rewrite IH by exact Hrest.
    change (e.(exn_msg)) with (exn_msg e).
    fold (warning_line q e). fold (add_output [warning_line q e] s).
    by rewrite add_output_app.
  - exfalso. apply (Hpre q v); [by left|done].
Qed.

(** X3: the candidate paths are tried in order and the first file that
    parses to an object wins: when the candidates before it are missing or
    fail to load, an uncached call with an incomplete environment set
    returns and caches that object merged with the environment, having
    printed one warning for each failing candidate before it, in order,
    and then the line naming the file it loaded. *)
Theorem load_config_first_usable (w : World) (db : Server) (s : St)
    (pre : list string) (p : string) (post : list string)
    (d : gmap string pyval) :
  truthy (_config (self s)) = false ->
  all_values (env_config w) = false ->
  possible_paths w = (pre ++ p :: post)%list ->
  (forall q v, In q pre -> fs w q <> Parsed v) ->
  fs w p = Parsed (PDict d) ->
  exists s',
    _load_config w db s = (Ok (PDict (merged w config_keys d)), s') /\
    _config (self s') = PDict (merged w config_keys d) /\
    stdout s' = (stdout s ++ skipped_output w pre ++ [debug_line p])%list.
Proof.
  intros Ht Hall Hpaths Hpre Hp.
  unfold _load_config. munfold. rewrite Ht, Hall, Hpaths.
  rewrite (probe_skip _ _ _ _ _ Hpre).
  rewrite (probe_Parsed _ _ _ _ _ _ _ Hp (merge_env_dict _ _ _ _)).
  eexists. split; [reflexivity|]. split; [reflexivity|].
  simpl. by rewrite app_assoc.
Qed.

Lemma load_config_first_usable_witness :
  exists s',
    _load_config third_path_world no_server init_state
      = (Ok (PDict (config_of "papersync" "postgres" "pw" "db.local" "6543")), s') /\
    _config (self s') = PDict (config_of "papersync" "postgres" "pw" "db.local" "6543") /\
    stdout s' =
      ["[WARNING] Could NOT load config from database/config.json: Expecting value: line 1 column 1 (char 0)";
       "[DEBUG] Loaded config from /usr/bin/database/config.json"].
Proof.
  refine (load_config_first_usable third_path_world no_server init_state
            ["database/config.json"; "/app/database/config.json"]
            "/usr/bin/database/config.json" ["/usr/bin/config.json"]
            (config_of "papersync" "postgres" "pw" "db.local" "5433")
            _ _ _ _ _); try (vm_compute; reflexivity).
  intros q v [<-|[<-|[]]]; vm_compute; discriminate.
Defined.

(** ** Files that are not checked *)

(** X4: the value of the file is not validated: on an uncached call with
    an incomplete environment set and none of the variables of the merge
    loop non-empty, whatever JSON value the first candidate parses to (an
    object with other keys, an array, a number, an empty object) is
    returned and cached as the configuration. *)
Theorem load_config_verbatim (w : World) (db : Server) (s : St) (v : pyval) :
  truthy (_config (self s)) = false ->
  all_values (env_config w) = false ->
  no_override w ->
  fs w (first_path w) = Parsed v ->
  exists s', _load_config w db s = (Ok v, s') /\ _config (self s') = v.
Proof.
  intros Ht Hall Hno Hfile. unfold _load_config. munfold. rewrite Ht, Hall.
  change (possible_paths w) with
    (first_path w :: [path_join (module_dir w) "config.json";
                      path_join (path_join (exe_dir w) "database") "config.json";
                      path_join (exe_dir w) "config.json"]).
  rewrite (probe_Parsed _ _ _ _ _ _ _ Hfile (merge_env_no_override _ _ _ _ Hno)).
  eexists. split; reflexivity.
Qed.

Lemma load_config_verbatim_witness :
  exists s', _load_config (array_world [("DB_NAME", "papersync")]) no_server init_state
               = (Ok (PList [PInt 1]), s') /\
             _config (self s') = PList [PInt 1].
Proof.
  apply load_config_verbatim; try (vm_compute; reflexivity).
  intros key [<-|[<-|[<-|[<-|[<-|[]]]]]]; vm_compute; reflexivity.
Defined.

Lemma probe_all_skipped paths w db s :
  (forall q v, In q paths -> fs w q <> Parsed v) ->
  probe paths w db s = (Ok None, add_output (skipped_output w paths) s).
Proof.
  intros H. pose proof (probe_skip paths [] w db s H) as Hp.
  by rewrite app_nil_r in Hp.
Qed.

(** X5: a file that parses, but not to an object, is passed over like a
    broken one as soon as one variable of the merge loop is non-empty: the
    assignment into it raises [TypeError], a warning is printed, and with
    no other candidate the fallback is returned, not the file's value. *)
Theorem load_config_non_object_skipped (w : World) (db : Server) (s : St)
    (v : pyval) (key : string) :
  truthy (_config (self s)) = false ->
  all_values (env_config w) = false ->
  fs w (first_path w) = Parsed v ->
  (forall d, v <> PDict d) ->
  In key config_keys ->
  truthy (getenv_val w ("DB_" ++ upper key)) = true ->
  (forall q u, In q (tail (possible_paths w)) -> fs w q <> Parsed u) ->
  exists msg s',
    _load_config w db s = (Ok (PDict fallback_config), s') /\
    stdout s' = (stdout s
                   ++ warning_line (first_path w) (Exn TypeError msg)
                   :: skipped_output w (tail (possible_paths w))
                   ++ [fallback_warning])%list.
Proof.
  intros Ht Hall Hfile Hv Hin Hkey Hrest.
  destruct (merge_env_non_object config_keys v w db key Hv Hin Hkey) as [msg Hm].
  exists msg. unfold _load_config. munfold. rewrite Ht, Hall.
  change (possible_paths w) with (first_path w :: tail (possible_paths w)) at 1.
  cbn [probe]. munfold. fold (try_path (first_path w) w db s).
  rewrite (try_path_Parsed _ _ _ _ _ Hfile), Hm.
  rewrite (probe_all_skipped _ _ _ _ Hrest).
  eexists. split; [reflexivity|]. simpl. unfold warning_line. simpl.
  by rewrite <- !app_assoc.
Qed.

Lemma load_config_non_object_skipped_witness :
  exists msg s',
    _load_config (array_world [("DB_USER", "app")]) no_server init_state
      = (Ok (PDict fallback_config), s') /\
    stdout s' =
      ([] ++ warning_line "database/config.json" (Exn TypeError msg)
          :: [] ++ [fallback_warning])%list.
Proof.
  refine (load_config_non_object_skipped (array_world [("DB_USER", "app")])
            no_server init_state (PList [PInt 1]) "user" _ _ _ _ _ _ _);
    try (vm_compute; reflexivity).
  - intros d. discriminate.
  - simpl. tauto.
  - intros q u Hq. vm_compute in Hq.
    destruct Hq as [<-|[<-|[<-|[]]]]; vm_compute; discriminate.
Defined.

(** ** Connecting with a cached configuration *)

Lemma load_config_cached w db s :
  truthy (_config (self s)) = true ->
  _load_config w db s = (Ok (_config (self s)), s).
Proof. intros Ht. unfold _load_config. munfold. by rewrite Ht. Qed.

(** X6: once a non-empty configuration is cached, [connect] no longer
    depends on the environment or on the files: in two worlds whatsoever,
    with the same server, it has the same result and leaves the same
    state. *)
Theorem connect_uses_cache (w w' : World) (db : Server) (s : St) :
  truthy (_config (self s)) = true ->
  connect w db s = connect w' db s.
Proof.
  intros Ht.
  assert (Hnew : connect_new w db s = connect_new w' db s).
  { unfold connect_new, psycopg2_connect. munfold.
    rewrite !(load_config_cached _ _ _ Ht).
    destruct (connect_args (_config (self s))) as [a|e]; [|reflexivity].
    by destruct (pg_connect db a). }
  unfold connect. munfold.
  destruct (connection (self s)) as [c|]; [|exact Hnew].
  destruct (negb (conn_closed s c)); [reflexivity|exact Hnew].
Qed.

Lemma connect_uses_cache_witness :
  connect bare_world demo_server closed_state
  = connect other_world demo_server closed_state.
Proof. apply connect_uses_cache. vm_compute. reflexivity. Defined.

(** ** Connecting with a partial configuration *)

Lemma connect_args_missing d k :
  first_missing d = Some k ->
  connect_args (PDict d) = Raise (Exn KeyError ("'" ++ k ++ "'")).
Proof.
  unfold first_missing, config_keys, connect_args, getitem. cbn [find].
  repeat (case_bool_decide as Hk;
          [rewrite Hk; by intros [= <-]
          |destruct (d !! _) as [?|]; [clear Hk|done]]).
  discriminate.
Qed.

(** X7: with a configuration that lacks one of the five keys, [connect]
    raises [ConnectionError] naming the first missing key, whatever the
    server would answer: the driver is not called, no connection object is
    created and the manager's connection is what it was. *)
Theorem connect_missing_key (w : World) (db : Server) (s : St)
    (d : gmap string pyval) (s0 : St) (k : string) :
  is_open s = false ->
  _load_config w db s = (Ok (PDict d), s0) ->
  first_missing d = Some k ->
  exists s',
    connect w db s =
      (Raise (Exn ConnectionError ("Database connection failed: '" ++ k ++ "'")), s') /\
    connection (self s') = connection (self s) /\
    conns s' = conns s.
Proof.
  intros Hopen Hcfg Hk.
  rewrite (connect_not_open _ _ _ Hopen).
  rewrite (connect_new_failure w db s (PDict d) s0
             (Exn KeyError ("'" ++ k ++ "'")) Hcfg)
    by (left; by apply connect_args_missing).
  apply load_config_frame in Hcfg as [Hc Hh].
  eexists. split; [reflexivity|]. by split.
Qed.

Lemma connect_missing_key_witness :
  exists s',
    connect partial_world demo_server init_state =
      (Raise (Exn ConnectionError "Database connection failed: 'password'"), s') /\
    connection (self s') = None /\
    conns s' = [].
Proof.
  apply (connect_missing_key partial_world demo_server init_state
           partial_file (after _load_config partial_world demo_server init_state)
           "password"); vm_compute; reflexivity.
Defined.

(** ** After [close] *)

Lemma close_not_open w db s : is_open (after close w db s) = false.
Proof.
  destruct (close_effect w db s) as [Hc Hh].
  unfold is_open, conn_closed. rewrite Hc, Hh.
  destruct (connection (self s)) as [c|] eqn:E; [|reflexivity].
  destruct (decide (c < length (conns s))) as [Hlt|Hge].
  - by rewrite list_lookup_insert_eq.
  - rewrite lookup_ge_None_2; [reflexivity|]. rewrite length_insert. lia.
Qed.

(** X8: [close] may be repeated: after it the manager has no open
    connection, though it still holds the closed object (the attribute is
    not reset), and a second [close] changes neither the manager's
    connection nor any connection object; it only prints its line again. *)
Theorem close_idempotent (w w' : World) (db db' : Server) (s : St) (c : nat) :
  connection (self s) = Some c ->
  let s1 := after close w db s in
  let s2 := after close w' db' s1 in
  is_open s1 = false /\
  connection (self s1) = Some c /\
  connection (self s2) = Some c /\
  conns s2 = conns s1 /\
  stdout s2 = (stdout s1 ++ ["Database connection closed."])%list.
Proof.
  intros Hc s1 s2.
  destruct (close_effect w db s) as [Hc1 Hh1].
  destruct (close_effect w' db' s1) as [Hc2 Hh2].
  fold s1 in Hc1, Hh1. fold s2 in Hc2, Hh2.
  rewrite Hc in Hc1, Hh1. rewrite Hc1 in Hc2, Hh2.
  split; [apply close_not_open|]. split; [exact Hc1|]. split; [exact Hc2|].
  split.
  - rewrite Hh2, Hh1. apply list_insert_insert_eq.
  - subst s2. unfold after, close, connection_close. munfold.
    by rewrite Hc1.
Qed.

Lemma close_idempotent_witness :
  let s1 := after close bare_world demo_server connected_state in
  let s2 := after close other_world no_server s1 in
  is_open s1 = false /\
  connection (self s1) = Some 0 /\
  connection (self s2) = Some 0 /\
  conns s2 = conns s1 /\
  stdout s2 = (stdout s1 ++ ["Database connection closed."])%list.
Proof.
  apply (close_idempotent bare_world other_world demo_server no_server
           connected_state 0). reflexivity.
Defined.

(** X9: [commit] and [rollback] are no-ops on a manager that never
    connected, whatever the server; on an open connection they return when
    the server accepts and otherwise raise the driver's exception, the
    connection being flagged closed exactly when it is lost, and change
    nothing else; after [close] they raise [InterfaceError], the closed
    object being still held. *)
Theorem commit_rollback_cases (w : World) (db : Server) (s : St) :
  (connection (self s) = None ->
     commit w db s = (Ok tt, s) /\ rollback w db s = (Ok tt, s)) /\
  (forall c,
     connection (self s) = Some c -> conn_closed s c = false ->
     commit w db s =
       match pg_commit db with
       | None => (Ok tt, s)
       | Some e => (Raise e, after_failure db c e s)
       end /\
     rollback w db s =
       match pg_rollback db with
       | None => (Ok tt, s)
       | Some e => (Raise e, after_failure db c e s)
       end) /\
  (forall w0 db0 s0 c,
     connection (self s0) = Some c -> s = after close w0 db0 s0 ->
     commit w db s = (Raise (Exn InterfaceError "connection already closed"), s) /\
     rollback w db s = (Raise (Exn InterfaceError "connection already closed"), s)).
Proof.
  unfold commit, rollback, connection_end_transaction. munfold.
  split; [|split].
  - by intros ->.
  - intros c -> ->. split.
    + destruct (pg_commit db) as [e|]; [apply driver_failure_run|reflexivity].
    + destruct (pg_rollback db) as [e|]; [apply driver_failure_run|reflexivity].
  - intros w0 db0 s0 c Hc ->.
    pose proof (close_not_open w0 db0 s0) as Hno.
    destruct (close_effect w0 db0 s0) as [Hc1 _].
    unfold is_open in Hno. rewrite Hc1, Hc in *.
    apply negb_false_iff in Hno. by rewrite Hno.
Qed.

Lemma commit_rollback_cases_witness :
  (commit bare_world no_server init_state = (Ok tt, init_state) /\
   rollback bare_world no_server init_state = (Ok tt, init_state)) /\
  (commit bare_world demo_server connected_state = (Ok tt, connected_state) /\
   rollback bare_world demo_server connected_state = (Ok tt, connected_state)) /\
  (commit bare_world no_server connected_state
     = (Raise (Exn OperationalError "server closed the connection"),
        mark_closed 0 connected_state) /\
   rollback bare_world no_server connected_state
     = (Raise (Exn OperationalError "server closed the connection"),
        mark_closed 0 connected_state)) /\
  (commit bare_world demo_server closed_state
     = (Raise (Exn InterfaceError "connection already closed"), closed_state) /\
   rollback bare_world demo_server closed_state
     = (Raise (Exn InterfaceError "connection already closed"), closed_state)).
Proof.
  split; [|split; [|split]].
  - apply (proj1 (commit_rollback_cases bare_world no_server init_state)).
    reflexivity.
  - apply (proj1 (proj2 (commit_rollback_cases bare_world demo_server connected_state))
             0); reflexivity.
  - apply (proj1 (proj2 (commit_rollback_cases bare_world no_server connected_state))
             0); reflexivity.
  - apply (proj2 (proj2 (commit_rollback_cases bare_world demo_server closed_state))
             bare_world demo_server connected_state 0); reflexivity.
Defined.

(** X10: [get_cursor] never connects: after a successful [connect] it
    returns a cursor on that connection and changes nothing; on a manager
    without a connection it raises, even when the server would accept a
    connection; and after [close] it raises [InterfaceError]. *)
Theorem get_cursor_lifecycle (w : World) (db : Server) (s : St) :
  (forall w0 db0 s0 c, connect w0 db0 s0 = (Ok c, s) ->
     get_cursor w db s = (Ok c, s)) /\
  (connection (self s) = None ->
     get_cursor w db s = (Raise (Exn Exception "No active database connection."), s)) /\
  (forall w0 db0 s0 c,
     connection (self s0) = Some c -> s = after close w0 db0 s0 ->
     get_cursor w db s = (Raise (Exn InterfaceError "connection already closed"), s)).
Proof.
  unfold get_cursor, connection_cursor. munfold. split; [|split].
  - intros w0 db0 s0 c Hconn. apply connect_Ok in Hconn as [Hc Hflag].
    unfold conn_closed. by rewrite Hc, Hflag.
  - by intros ->.
  - intros w0 db0 s0 c Hc ->.
    pose proof (close_not_open w0 db0 s0) as Hno.
    destruct (close_effect w0 db0 s0) as [Hc1 _].
    unfold is_open in Hno. rewrite Hc1, Hc in *.
    apply negb_false_iff in Hno. by rewrite Hno.
Qed.

Lemma get_cursor_lifecycle_witness :
  get_cursor bare_world demo_server connected_state = (Ok 0, connected_state) /\
  get_cursor bare_world demo_server init_state
    = (Raise (Exn Exception "No active database connection."), init_state) /\
  get_cursor bare_world demo_server closed_state
    = (Raise (Exn InterfaceError "connection already closed"), closed_state).
Proof.
  split; [|split].
  - apply (proj1 (get_cursor_lifecycle bare_world demo_server connected_state)
             bare_world demo_server init_state 0). vm_compute. reflexivity.
  - apply (proj1 (proj2 (get_cursor_lifecycle bare_world demo_server init_state))).
    reflexivity.
  - apply (proj2 (proj2 (get_cursor_lifecycle bare_world demo_server closed_state))
             bare_world demo_server connected_state 0); reflexivity.
Defined.

(** ** The look-ups by user name *)

Lemma first_column_lookup_cases sql username w db s c :
  connection (self s) = Some c ->
  conn_closed s c = false ->
  (forall x r rest,
     pg_execute db sql (PList [username]) = Ok ((x :: r) :: rest) ->
     first_column_lookup sql username w db s = (Ok (to_py x), s)) /\
  (pg_execute db sql (PList [username]) = Ok [] ->
     first_column_lookup sql username w db s = (Ok PNone, s)) /\
  (forall e,
     pg_execute db sql (PList [username]) = Raise e ->
     first_column_lookup sql username w db s = (Raise e, after_failure db c e s)).
Proof.
  intros Hconn Hc.
  unfold first_column_lookup, get_cursor, connection_cursor, cursor_execute.
  munfold. rewrite Hconn, Hc. cbn beta iota. rewrite Hc.
  repeat split.
  - by intros x r rest ->.
  - by intros ->.
  - intros e ->. by rewrite driver_failure_run.
Qed.

Lemma first_column_lookup_not_open sql username w db s :
  is_open s = false ->
  exists e, first_column_lookup sql username w db s = (Raise e, s).
Proof.
  intros Hopen. destruct (get_cursor_not_open w db s Hopen) as (e & He).
  exists e. unfold first_column_lookup. munfold. by rewrite He.
Qed.

(** X11: on a manager with an open connection [get_staff_id] returns the
    first column of the first row of its query and [None] when there is no
    row, changing nothing; an exception of the query reaches the caller,
    the connection being flagged closed exactly when it is lost with it;
    without an open connection the method raises and changes nothing. *)
Theorem get_staff_id_spec (username : pyval) (w : World) (db : Server) (s : St) :
  (forall c,
     connection (self s) = Some c -> conn_closed s c = false ->
     (forall x r rest,
        pg_execute db sql_staff_id (PList [username]) = Ok ((x :: r) :: rest) ->
        get_staff_id username w db s = (Ok (to_py x), s)) /\
     (pg_execute db sql_staff_id (PList [username]) = Ok [] ->
        get_staff_id username w db s = (Ok PNone, s)) /\
     (forall e,
        pg_execute db sql_staff_id (PList [username]) = Raise e ->
        get_staff_id username w db s = (Raise e, after_failure db c e s))) /\
  (is_open s = false ->
     exists e, get_staff_id username w db s = (Raise e, s)).
Proof.
  split.
  - intros c. apply (first_column_lookup_cases sql_staff_id).
  - apply (first_column_lookup_not_open sql_staff_id).
Qed.

Lemma get_staff_id_spec_witness :
  get_staff_id (PStr "ada") bare_world demo_server connected_state
    = (Ok (PInt 1), connected_state) /\
  get_staff_id (PStr "bob") bare_world demo_server connected_state
    = (Ok PNone, connected_state) /\
  get_staff_id (PStr "ada") bare_world failing_server connected_state
    = (Raise (Exn ProgrammingError "relation STAFF does not exist"), connected_state) /\
  get_staff_id (PStr "ada") bare_world no_server connected_state
    = (Raise (Exn OperationalError "server closed the connection"),
       mark_closed 0 connected_state) /\
  exists e, get_staff_id (PStr "ada") bare_world demo_server closed_state
              = (Raise e, closed_state).
Proof.
  destruct (get_staff_id_spec (PStr "ada") bare_world demo_server connected_state)
    as [Ha _].
  destruct (get_staff_id_spec (PStr "bob") bare_world demo_server connected_state)
    as [Hb _].
  destruct (get_staff_id_spec (PStr "ada") bare_world failing_server connected_state)
    as [Hc _].
  destruct (get_staff_id_spec (PStr "ada") bare_world no_server connected_state)
    as [Hd _].
  destruct (get_staff_id_spec (PStr "ada") bare_world demo_server closed_state)
    as [_ He].
  split; [|split; [|split; [|split]]].
  - apply (proj1 (Ha 0 eq_refl eq_refl) (SInt 1) [] []). reflexivity.
  - apply (proj1 (proj2 (Hb 0 eq_refl eq_refl))). reflexivity.
  - apply (proj2 (proj2 (Hc 0 eq_refl eq_refl))). reflexivity.
  - apply (proj2 (proj2 (Hd 0 eq_refl eq_refl))). reflexivity.
  - apply He. reflexivity.
Defined.

(** X12: on a manager with an open connection [get_user_first_name]
    returns the first name of the first row of its query and [None] when
    no row matches, changing nothing; a first name that is [NULL] gives
    [None] as well. *)
Theorem get_user_first_name_spec (username : pyval) (w : World) (db : Server)
    (s : St) :
  is_open s = true ->
  (forall x r rest,
     pg_execute db sql_first_name (PList [username]) = Ok ((x :: r) :: rest) ->
     get_user_first_name username w db s = (Ok (to_py x), s)) /\
  (forall r rest,
     pg_execute db sql_first_name (PList [username]) = Ok ((SNull :: r) :: rest) ->
     get_user_first_name username w db s = (Ok PNone, s)) /\
  (pg_execute db sql_first_name (PList [username]) = Ok [] ->
     get_user_first_name username w db s = (Ok PNone, s)).
Proof.
  intros Hopen.
  destruct (get_cursor_open w db s Hopen) as (c & Hconn & Hc & _).
  destruct (first_column_lookup_cases sql_first_name username w db s c Hconn Hc)
    as (Hrow & Hnone & _).
  split; [exact Hrow|]. split; [|exact Hnone].
  intros r rest Hq. exact (Hrow SNull r rest Hq).
Qed.

Lemma get_user_first_name_spec_witness :
  get_user_first_name (PStr "ada") bare_world demo_server connected_state
    = (Ok (PStr "Ada"), connected_state) /\
  get_user_first_name (PStr "bob") bare_world demo_server connected_state
    = (Ok PNone, connected_state).
Proof.
  destruct (get_user_first_name_spec (PStr "ada") bare_world demo_server
              connected_state eq_refl) as (Ha & _ & _).
  destruct (get_user_first_name_spec (PStr "bob") bare_world demo_server
              connected_state eq_refl) as (_ & _ & Hb).
  split.
  - apply (Ha (SText "Ada") [] []). reflexivity.
  - apply Hb. reflexivity.
Defined.

(** ** [fetch_all] *)

(** X13: [fetch_all] raises on a manager that never connected; on an open
    connection it returns all the rows of the query, changing nothing, or
    lets the exception of the query through, the connection being flagged
    closed exactly when it is lost with it; parameters that are [None],
    empty or otherwise false are replaced by the empty tuple. *)
Theorem fetch_all_spec (query : string) (params : pyval) (w : World)
    (db : Server) (s : St) :
  (connection (self s) = None ->
     fetch_all query params w db s
       = (Raise (Exn Exception "Database connection is not established."), s)) /\
  (forall c,
     connection (self s) = Some c -> conn_closed s c = false ->
     fetch_all query params w db s =
       match pg_execute db query (if truthy params then params else PList []) with
       | Ok rows => (Ok rows, s)
       | Raise e => (Raise e, after_failure db c e s)
       end) /\
  (truthy params = false ->
     fetch_all query params w db s = fetch_all query (PList []) w db s).
Proof.
  split; [|split].
  - intros Hc. unfold fetch_all. munfold. by rewrite Hc.
  - intros c Hconn Hc.
    unfold fetch_all, get_cursor, connection_cursor, cursor_execute. munfold.
    repeat (first [rewrite Hconn|rewrite Hc]; cbn beta iota).
    destruct (pg_execute db query _) as [rows|e]; [reflexivity|].
    by rewrite driver_failure_run.
  - intros Hp. unfold fetch_all. by rewrite Hp.
Qed.

Lemma fetch_all_spec_witness :
  fetch_all sql_first_name PNone bare_world demo_server init_state
    = (Raise (Exn Exception "Database connection is not established."), init_state) /\
  fetch_all sql_first_name (PList [PStr "ada"]) bare_world demo_server connected_state
    = (Ok [[SText "Ada"]], connected_state) /\
  fetch_all sql_first_name (PList [PStr "ada"]) bare_world no_server connected_state
    = (Raise (Exn OperationalError "server closed the connection"),
       mark_closed 0 connected_state) /\
  fetch_all sql_first_name PNone bare_world demo_server connected_state
    = fetch_all sql_first_name (PList []) bare_world demo_server connected_state.
Proof.
  split; [|split; [|split]].
  - apply (proj1 (fetch_all_spec sql_first_name PNone bare_world demo_server
                    init_state)). reflexivity.
  - apply (proj1 (proj2 (fetch_all_spec sql_first_name (PList [PStr "ada"])
                           bare_world demo_server connected_state)) 0); reflexivity.
  - apply (proj1 (proj2 (fetch_all_spec sql_first_name (PList [PStr "ada"])
                           bare_world no_server connected_state)) 0); reflexivity.
  - apply (proj2 (proj2 (fetch_all_spec sql_first_name PNone bare_world
                           demo_server connected_state))). reflexivity.
Defined.

(** ** What [fetch_one] leaves behind *)

(** On a manager without the attribute [cursor], [fetch_one] does to the
    connections what its [connect] does. *)
Lemma fetch_one_no_cursor query params w db s :
  cursor (self s) = None ->
  same_connections (after connect w db s) (after (fetch_one query params) w db s).
Proof.
  intros Hcur. pose proof (keeps_connect w db s) as Hk. rewrite Hcur in Hk.
  unfold after, fetch_one, self_cursor. munfold.
  destruct (connect w db s) as [[c|e] s1]; simpl in *; [|by split].
  rewrite Hk. by split.
Qed.

(** X14: though it returns [None], [fetch_one] connects: on a manager
    without the attribute [cursor] (as every manager the class reaches)
    and without an open connection, whose driver call succeeds, it leaves
    the manager connected to a new, open connection object; on such a
    manager with an open connection it leaves the connections as they
    are. *)
Theorem fetch_one_connects (query : string) (params : pyval) (w : World)
    (db : Server) (s : St) :
  cursor (self s) = None ->
  (forall cfg s0 a,
     is_open s = false ->
     _load_config w db s = (Ok cfg, s0) ->
     connect_args cfg = Ok a ->
     pg_connect db a = None ->
     let s' := after (fetch_one query params) w db s in
     is_open s' = true /\
     connection (self s') = Some (length (conns s)) /\
     conns s' = (conns s ++ [false])%list) /\
  (is_open s = true ->
     same_connections s (after (fetch_one query params) w db s)).
Proof.
  intros Hcur.
  pose proof (fetch_one_no_cursor query params w db s Hcur) as [Hc Hh]. split.
  - intros cfg s0 a Hopen Hcfg Hargs Hpg s'. fold s' in Hc, Hh.
    unfold after in Hc, Hh. rewrite (connect_not_open _ _ _ Hopen) in Hc, Hh.
    rewrite (connect_new_success _ _ _ _ _ _ Hcfg Hargs Hpg) in Hc, Hh.
    apply load_config_frame in Hcfg as [_ Hconns]. simpl in Hc, Hh.
    rewrite Hconns in Hc, Hh.
    split; [|by split].
    unfold is_open, conn_closed. rewrite Hc, Hh.
    rewrite lookup_app_r by lia. by rewrite Nat.sub_diag.
  - intros Hopen. destruct (connect_open w db s Hopen) as (c & _ & Hconn).
    unfold after in *. rewrite Hconn in Hc, Hh. by split.
Qed.

Lemma fetch_one_connects_witness :
  let s' := after (fetch_one sql_first_name (PList [PStr "ada"]))
              bare_world demo_server init_state in
  is_open s' = true /\
  connection (self s') = Some 0 /\
  conns s' = [false].
Proof.
  apply (proj1 (fetch_one_connects sql_first_name (PList [PStr "ada"])
                  bare_world demo_server init_state eq_refl)
           (PDict fallback_config)
           (after _load_config bare_world demo_server init_state)
           {| a_dbname := PStr "DB_PAPERSYNC"; a_user := PStr "postgres";
              a_password := PStr "papersync2025"; a_host := PStr "localhost";
              a_port := PStr "5432" |}); vm_compute; reflexivity.
Defined.

(** ** Failures of [get_staff_name_by_id] *)

(** X15: a failure inside [get_staff_name_by_id] is reported, not lost:
    when the query raises on an open connection, and when there is no open
    connection, the method returns [None] after printing one line that
    names the id and carries the message of the exception; nothing else
    changes, except that the connection is flagged closed when it is lost
    with the failing query. *)
Theorem staff_name_failure_logged (id : Z) (w : World) (db : Server) (s : St) :
  (forall c e,
     connection (self s) = Some c -> conn_closed s c = false ->
     pg_execute db sql_staff_name (PList [PInt id]) = Raise e ->
     get_staff_name_by_id (Some id) w db s
       = (Ok PNone, add_output [staff_error_line id e] (after_failure db c e s))) /\
  (is_open s = false ->
     exists e, get_staff_name_by_id (Some id) w db s
                 = (Ok PNone, add_output [staff_error_line id e] s)).
Proof.
  split.
  - intros c e Hconn Hc Hq.
    unfold get_staff_name_by_id, get_cursor, connection_cursor, cursor_execute.
    munfold. repeat (first [rewrite Hconn|rewrite Hc]; cbn beta iota).
    rewrite Hq, driver_failure_run. reflexivity.
  - intros Hopen. destruct (get_cursor_not_open w db s Hopen) as (e & He).
    exists e. unfold get_staff_name_by_id. munfold. rewrite He. reflexivity.
Qed.

Lemma staff_name_failure_logged_witness :
  get_staff_name_by_id (Some 7%Z) bare_world failing_server connected_state
    = (Ok PNone,
       add_output
         [staff_error_line 7 (Exn ProgrammingError "relation STAFF does not exist")]
         connected_state) /\
  get_staff_name_by_id (Some 7%Z) bare_world no_server connected_state
    = (Ok PNone,
       add_output
         [staff_error_line 7 (Exn OperationalError "server closed the connection")]
         (mark_closed 0 connected_state)) /\
  exists e, get_staff_name_by_id (Some 7%Z) bare_world demo_server init_state
              = (Ok PNone, add_output [staff_error_line 7 e] init_state).
Proof.
  destruct (staff_name_failure_logged 7 bare_world failing_server connected_state)
    as [Ha _].
  destruct (staff_name_failure_logged 7 bare_world no_server connected_state)
    as [Hb _].
  destruct (staff_name_failure_logged 7 bare_world demo_server init_state)
    as [_ Hc].
  split; [|split].
  - apply (Ha 0); reflexivity.
  - apply (Hb 0); reflexivity.
  - apply Hc; reflexivity.
Defined.

(** ** The name is trimmed *)

Section StripFacts.

Variable p1 : ascii -> bool.
Variable p2 : ascii -> ascii -> bool.
Variable p3 : ascii -> ascii -> ascii -> bool.

(** What is left does not begin with white space. *)
Lemma lstrip_with_starts l :
  starts_with p1 p2 p3 (lstrip_with p1 p2 p3 l) = false.
Proof.
  assert (H : forall n l, length l <= n ->
                starts_with p1 p2 p3 (lstrip_with p1 p2 p3 l) = false).
  { clear l. induction n as [|n IH]; intros l Hl.
    { destruct l; [reflexivity|simpl in Hl; lia]. }
    destruct l as [|c1 l1]; [reflexivity|]. cbn [lstrip_with].
    destruct (p1 c1) eqn:H1; [apply IH; simpl in Hl; lia|].
    destruct l1 as [|c2 l2]; [simpl; by rewrite H1|].
    destruct (p2 c1 c2) eqn:H2; [apply IH; simpl in Hl; lia|].
    destruct l2 as [|c3 l3]; [simpl; by rewrite H1, H2|].
    destruct (p3 c1 c2 c3) eqn:H3; [apply IH; simpl in Hl; lia|].
    simpl. by rewrite H1, H2, H3. }
  by apply (H (length l)).
Qed.

(** What is left is the end of the input. *)
Lemma lstrip_with_suffix l :
  exists p, l = (p ++ lstrip_with p1 p2 p3 l)%list.
Proof.
  assert (H : forall n l, length l <= n ->
                exists p, l = (p ++ lstrip_with p1 p2 p3 l)%list).
  { clear l. induction n as [|n IH]; intros l Hl.
    { destruct l; [by exists []|simpl in Hl; lia]. }
    destruct l as [|c1 l1]; [by exists []|]. cbn [lstrip_with].
    destruct (p1 c1).
    { destruct (IH l1) as [p Hp]; [simpl in Hl; lia|].
      exists (c1 :: p). simpl. by rewrite <- Hp. }
    destruct l1 as [|c2 l2]; [by exists []|].
    destruct (p2 c1 c2).
    { destruct (IH l2) as [p Hp]; [simpl in Hl; lia|].
      exists (c1 :: c2 :: p). simpl. by rewrite <- Hp. }
    destruct l2 as [|c3 l3]; [by exists []|].
    destruct (p3 c1 c2 c3); [|by exists []].
    destruct (IH l3) as [p Hp]; [simpl in Hl; lia|].
    exists (c1 :: c2 :: c3 :: p). simpl. by rewrite <- Hp. }
  by apply (H (length l)).
Qed.

(** A list that begins with white space still does when it is extended. *)
Lemma starts_with_app a b :
  starts_with p1 p2 p3 a = true -> starts_with p1 p2 p3 (a ++ b) = true.
Proof.
  destruct a as [|c1 [|c2 [|c3 a]]]; simpl; [discriminate|..];
    destruct (p1 c1); simpl; try done;
    destruct (p2 c1 c2); simpl; try done.
Qed.

End StripFacts.

Lemma strip_trimmed s : trimmed (strip s).
Proof.
  unfold trimmed, strip. rewrite list_ascii_of_string_of_list_ascii.
  set (x := lstrip (list_ascii_of_string s)).
  set (q2 := fun c2 c1 => is_space2 c1 c2).
  set (q3 := fun c3 c2 c1 => is_space3 c1 c2 c3).
  assert (Hx : starts_with is_space is_space2 is_space3 x = false)
    by apply lstrip_with_starts.
  unfold rstrip. fold q2 q3. split.
  - destruct (lstrip_with_suffix is_space q2 q3 (rev x)) as [p Hp].
    assert (Hsplit : x = (rev (lstrip_with is_space q2 q3 (rev x)) ++ rev p)%list).
    { rewrite <- rev_app_distr, <- Hp. by rewrite rev_involutive. }
    destruct (starts_with is_space is_space2 is_space3
                (rev (lstrip_with is_space q2 q3 (rev x)))) eqn:Hs; [|reflexivity].
    apply (starts_with_app _ _ _ _ (rev p)) in Hs. rewrite <- Hsplit in Hs.
    congruence.
  - rewrite rev_involutive. apply lstrip_with_starts.
Qed.

Lemma staff_name_is_stripped staff_id w db s name s' :
  get_staff_name_by_id staff_id w db s = (Ok (PStr name), s') ->
  exists str, name = strip str.
Proof.
  destruct staff_id as [id|]; [|discriminate].
  unfold get_staff_name_by_id, cursor_execute. munfold.
  destruct (get_cursor w db s) as [[c|e] s1]; [|discriminate].
  destruct (conn_closed s1 c); [discriminate|].
  destruct (pg_execute db sql_staff_name (PList [PInt id])) as [rows|e];
    [|rewrite driver_failure_run; discriminate].
  destruct rows as [|r rest]; [discriminate|]. simpl.
  destruct r as [|x [|y [|z r]]]; simpl; try discriminate.
  intros [= <- _]. eauto.
Qed.

(** X16: a name returned by [get_staff_name_by_id] is trimmed: whatever
    the row holds, the string neither begins nor ends with a white space
    character, in the sense of [str.isspace], U+00A0 and the other
    characters beyond ASCII included. *)
Theorem staff_name_trimmed (staff_id : option Z) (w : World) (db : Server)
    (s : St) (name : string) (s' : St) :
  get_staff_name_by_id staff_id w db s = (Ok (PStr name), s') ->
  trimmed name.
Proof.
  intros H. apply staff_name_is_stripped in H as [str ->]. apply strip_trimmed.
Qed.

Lemma staff_name_trimmed_witness : trimmed "Ada Lovelace".
Proof.
  apply (staff_name_trimmed (Some 1%Z) bare_world padded_server connected_state
           "Ada Lovelace" connected_state).
  vm_compute. reflexivity.
Defined.

(** The no-break space goes with the rest. *)
Example strip_no_break_space : strip (nbsp ++ " Ada" ++ nbsp ++ " ") = "Ada".
Proof. vm_compute. reflexivity. Qed.

(** ** The cache over the life of the manager *)

Lemma config_kept_refl db s : config_kept db s s.
Proof. by intros _. Qed.

Lemma config_kept_trans db s1 s2 s3 :
  config_kept db s1 s2 -> config_kept db s2 s3 -> config_kept db s1 s3.
Proof.
  intros H12 H23 Ht. specialize (H12 Ht). rewrite <- H12.
  apply H23. by rewrite H12.
Qed.

Lemma kept_print line : preserves config_kept (print line).
Proof. by intros w db s _. Qed.

Lemma kept_set_connection c : preserves config_kept (set_connection c).
Proof. by intros w db s _. Qed.

Lemma kept_psycopg2_connect a : preserves config_kept (psycopg2_connect a).
Proof.
  intros w db s _. unfold psycopg2_connect. by destruct (pg_connect db a).
Qed.

Lemma kept_connection_close c : preserves config_kept (connection_close c).
Proof. by intros w db s _. Qed.

Lemma kept_load_config : preserves config_kept _load_config.
Proof. intros w db s Ht. by rewrite (load_config_cached _ _ _ Ht). Qed.

#[local] Hint Resolve kept_print kept_set_connection kept_psycopg2_connect
  kept_connection_close kept_load_config : pres.

Ltac kept_body := repeat pres_step config_kept_refl config_kept_trans.

Lemma kept_driver_failure {A} c e : preserves config_kept (@driver_failure A c e).
Proof. unfold driver_failure. kept_body. Qed.

#[local] Hint Resolve kept_driver_failure : pres.

Lemma kept_connect : preserves config_kept connect.
Proof. unfold connect, connect_new. kept_body. Qed.

Lemma kept_get_cursor : preserves config_kept get_cursor.
Proof. unfold get_cursor, connection_cursor. kept_body. Qed.

Lemma kept_cursor_execute cur sql params :
  preserves config_kept (cursor_execute cur sql params).
Proof. unfold cursor_execute. kept_body. Qed.

Lemma kept_end_transaction outcome c :
  preserves config_kept (connection_end_transaction outcome c).
Proof. unfold connection_end_transaction. kept_body. Qed.

#[local] Hint Resolve kept_connect kept_get_cursor kept_cursor_execute
  kept_end_transaction : pres.

Lemma exec_config_kept c w db s : config_kept db s (exec c w db s).
Proof.
  assert (H : forall A (m : M A), preserves config_kept m ->
                config_kept db s (after m w db s))
    by (intros A m Hm; apply Hm).
  destruct c; cbn [exec]; apply H.
  - apply kept_load_config.
  - apply kept_connect.
  - apply kept_get_cursor.
  - unfold commit. kept_body.
  - unfold rollback. kept_body.
  - unfold close. kept_body.
  - unfold get_user_first_name. kept_body.
  - unfold get_staff_id. kept_body.
  - unfold get_staff_name_by_id. kept_body.
  - unfold fetch_all. kept_body.
  - unfold fetch_one, self_cursor. kept_body.
Qed.

(** X17: a non-empty cached configuration lasts for the life of the
    manager: no sequence of calls of its methods, in whatever worlds and
    against whatever servers, changes it. *)
Theorem config_immutable (calls : list (call * World * Server)) (s : St) :
  truthy (_config (self s)) = true ->
  _config (self (run_calls calls s)) = _config (self s).
Proof.
  revert s. induction calls as [|[[c w] db] rest IH]; intros s Ht; [reflexivity|].
  unfold run_calls. simpl. fold (run_calls rest (exec c w db s)).
  pose proof (exec_config_kept c w db s Ht) as Hstep.
  rewrite IH; [exact Hstep|]. by rewrite Hstep.
Qed.

Lemma config_immutable_witness :
  _config (self (run_calls
                   [(call_close, other_world, demo_server);
                    (call_load_config, other_world, demo_server);
                    (call_connect, other_world, demo_server);
                    (call_fetch_one sql_first_name PNone, other_world, no_server)]
                   connected_state))
  = PDict fallback_config.
Proof.
  apply (config_immutable
           [(call_close, other_world, demo_server);
            (call_load_config, other_world, demo_server);
            (call_connect, other_world, demo_server);
            (call_fetch_one sql_first_name PNone, other_world, no_server)]
           connected_state).
  vm_compute. reflexivity.
Defined.

(** ** The lines printed while connecting *)

Lemma merge_env_error keys v w db e :
  (merge_env keys v w db init_state).1 = Raise e -> merge_error e.
Proof.
  revert v. induction keys as [|key rest IH]; intros v; [discriminate|].
  rewrite merge_env_cons.
  destruct (truthy (getenv_val w ("DB_" ++ upper key))); [|apply IH].
  destruct v; simpl; try apply IH; intros [= <-]; split; simpl; auto 10.
Qed.

Lemma path_line_weaken w paths paths' l :
  (forall p, In p paths -> In p paths') ->
  path_line w paths l -> path_line w paths' l.
Proof. intros Hsub (p & Hp & H). exists p. auto. Qed.

Lemma probe_output paths w db s :
  exists lines,
    stdout (probe paths w db s).2 = (stdout s ++ lines)%list /\
    Forall (path_line w paths) lines.
Proof.
  revert s. induction paths as [|p rest IH]; intros s.
  { exists []. simpl. by rewrite app_nil_r. }
  assert (Hrest : forall l, path_line w rest l -> path_line w (p :: rest) l)
    by (intros l; apply path_line_weaken; intros q ?; by right).
  assert (Hskip : forall e s1,
            stdout s1 = (stdout s ++ [warning_line p e])%list ->
            (fs w p = Broken e \/ merge_error e) ->
            exists lines,
              stdout (probe rest w db s1).2 = (stdout s ++ lines)%list /\
              Forall (path_line w (p :: rest)) lines).
  { intros e s1 Hs1 He. destruct (IH s1) as (lines & Hout & Hall).
    exists (warning_line p e :: lines). split.
    - rewrite Hout, Hs1. by rewrite <- app_assoc.
    - constructor; [|eapply Forall_impl; eauto].
      exists p. split; [by left|]. right. eauto. }
  cbn [probe]. munfold. unfold try_path. munfold.
  destruct (fs w p) as [|e|v] eqn:Hp.
  - destruct (IH s) as (lines & Hout & Hall). exists lines. split; [exact Hout|].
    eapply Forall_impl; eauto.
  - apply (Hskip e); [reflexivity|by left].
  - rewrite merge_env_pure.
    destruct (merge_env config_keys v w db init_state).1 as [c|e] eqn:Hm.
    + exists [debug_line p]. split; [reflexivity|].
      constructor; [|constructor]. exists p. split; [by left|by left].
    + apply (Hskip e); [reflexivity|]. right. eapply merge_env_error, Hm.
Qed.

Lemma load_config_output w db s :
  exists lines,
    stdout (after _load_config w db s) = (stdout s ++ lines)%list /\
    Forall (load_line w) lines.
Proof.
  unfold after, _load_config. munfold.
  destruct (truthy (_config (self s))).
  { exists []. simpl. by rewrite app_nil_r. }
  destruct (all_values (env_config w)).
  { exists []. simpl. by rewrite app_nil_r. }
  destruct (probe_output (possible_paths w) w db s) as (lines & Hout & Hall).
  destruct (probe (possible_paths w) w db s) as [[[c|]|e] s1]; simpl in *.
  - exists lines. split; [exact Hout|]. eapply Forall_impl; [exact Hall|].
    intros l ?. by right.
  - exists (lines ++ [fallback_warning])%list. split.
    + rewrite Hout. by rewrite app_assoc.
    + apply Forall_app. split.
      * eapply Forall_impl; [exact Hall|]. intros l ?. by right.
      * constructor; [by left|constructor].
  - exists lines. split; [exact Hout|]. eapply Forall_impl; [exact Hall|].
    intros l ?. by right.
Qed.

(** X18: no value of the configuration is ever printed: the lines that
    [connect] adds to the standard output, on success and on failure, are
    the two fixed messages of [connect], the fallback warning, and lines
    that name a candidate path, alone or with the message of the
    exception met while loading that file or, when the merge raised, with
    one of the messages of [merge_messages], which name at most the type of
    the file's value. *)
Theorem connect_output (w : World) (db : Server) (s : St) :
  exists lines,
    stdout (after connect w db s) = (stdout s ++ lines)%list /\
    Forall (connect_line w) lines.
Proof.
  assert (Hload : forall l, load_line w l -> connect_line w l)
    by (intros l ?; by left).
  unfold after. destruct (is_open s) eqn:Hopen.
  { destruct (connect_open w db s Hopen) as (c & _ & ->).
    exists []. simpl. by rewrite app_nil_r. }
  rewrite (connect_not_open _ _ _ Hopen).
  destruct (load_config_output w db s) as (lines & Hout & Hall).
  destruct (connect_new_cases w db s) as (cfg & s0 & Hcfg & [->|[e0 ->]]);
    unfold after in Hout; rewrite Hcfg in Hout; simpl in *.
  - exists (lines ++ ["[INFO] Successfully connected to PostgreSQL"])%list. split.
    + rewrite Hout. by rewrite app_assoc.
    + apply Forall_app. split; [eapply Forall_impl; eauto|].
      constructor; [|constructor]. right. by left.
  - exists (lines ++ ["[ERROR] Failed to connect to PostgreSQL:"])%list. split.
    + rewrite Hout. by rewrite app_assoc.
    + apply Forall_app. split; [eapply Forall_impl; eauto|].
      constructor; [|constructor]. right. by right.
Qed.

(** ** Trying again *)

(** X19: a failed [connect] is not remembered: when a later [connect]
    finds the driver willing, it opens a new connection, which becomes the
    manager's, exactly as a first [connect] would. *)
Theorem connect_retry (w : World) (db : Server) (s : St) (e : exn) (s1 : St)
    (w' : World) (db' : Server) (cfg : pyval) (s2 : St) (a : conn_args) :
  connect w db s = (Raise e, s1) ->
  _load_config w' db' s1 = (Ok cfg, s2) ->
  connect_args cfg = Ok a ->
  pg_connect db' a = None ->
  connect w' db' s1 = (Ok (length (conns s)), connected s2) /\
  is_open (connected s2) = true.
Proof.
  intros Hfail Hcfg Hargs Hpg.
  assert (Hopen : is_open s = false).
  { destruct (is_open s) eqn:Ho; [|reflexivity].
    destruct (connect_open w db s Ho) as (c & _ & Hc). congruence. }
  apply connect_Raise in Hfail as (_ & Hc & Hh).
  assert (Hopen1 : is_open s1 = false).
  { unfold is_open, conn_closed in *. by rewrite Hc, Hh. }
  rewrite (connect_not_open _ _ _ Hopen1).
  rewrite (connect_new_success _ _ _ _ _ _ Hcfg Hargs Hpg).
  apply load_config_frame in Hcfg as [_ Hconns].
  split; [by rewrite Hconns, Hh|].
  unfold is_open, conn_closed, connected. simpl.
  rewrite lookup_app_r by lia. by rewrite Nat.sub_diag.
Qed.

Lemma connect_retry_witness :
  let s1 := after connect bare_world no_server init_state in
  connect bare_world demo_server s1
    = (Ok 0, connected (after _load_config bare_world demo_server s1)) /\
  is_open (connected (after _load_config bare_world demo_server s1)) = true.
Proof.
  intros s1.
  apply (connect_retry bare_world no_server init_state
           (Exn ConnectionError "Database connection failed: connection refused")
           s1 bare_world demo_server (PDict fallback_config)
           (after _load_config bare_world demo_server s1)
           {| a_dbname := PStr "DB_PAPERSYNC"; a_user := PStr "postgres";
              a_password := PStr "papersync2025"; a_host := PStr "localhost";
              a_port := PStr "5432" |}); vm_compute; reflexivity.
Defined.

(** ** The variable for the database name *)

(** X20: when the configuration comes from a file, the variable that
    overrides [dbname] is [DB_DBNAME], the key in upper case after [DB_]:
    on an uncached call with an incomplete environment set and an object at
    the first candidate path, the database name returned is the value of
    [DB_DBNAME] when that is set and not empty, and the file's otherwise,
    whatever [DB_NAME] holds. *)
Theorem load_config_dbname_override (w : World) (db : Server) (s : St)
    (d : gmap string pyval) :
  truthy (_config (self s)) = false ->
  all_values (env_config w) = false ->
  fs w (first_path w) = Parsed (PDict d) ->
  exists d' s',
    _load_config w db s = (Ok (PDict d'), s') /\
    d' !! "dbname" = overridden w "DB_DBNAME" (d !! "dbname").
Proof.
  intros Ht Hall Hfile.
  exists (merged w config_keys d),
         (loaded (first_path w) (PDict (merged w config_keys d)) s).
  split; [exact (load_config_first_file w db s d Ht Hall Hfile)|].
  apply merge_dbname_variable.
Qed.

Lemma load_config_dbname_override_witness :
  exists d' s',
    _load_config db_name_world no_server init_state = (Ok (PDict d'), s') /\
    d' !! "dbname" = Some (PStr "papersync").
Proof.
  refine (load_config_dbname_override db_name_world no_server init_state
            (config_of "papersync" "postgres" "pw" "db.local" "5433") _ _ _);
    vm_compute; reflexivity.
Defined.

(** The password of [secret_world] does not reach the output. *)
Example connect_prints_no_secret :
  stdout (after connect secret_world demo_server init_state)
  = ["[INFO] Successfully connected to PostgreSQL"].
Proof. vm_compute. reflexivity. Qed.
